(** * tiny-renderer: a software rasterizer, embedded and verified

    Shallow embedding of [src/tiny-renderer.ts] (class [TinyRenderer]).

    Numbers.  The finite JavaScript numbers the renderer computes with are
    modelled as exact rationals [Q]; [-Infinity] only occurs as the initial
    content of the depth buffer and is a constructor of [Depth]; reading a
    missing array element gives [undefined], modelled as [None].  Exact
    rationals agree with IEEE doubles on integers of magnitude below
    [2^53]: sums, differences and products that stay in that range are
    exact.  Statements about the loop of [line] on integer end points are
    therefore made for coordinates of magnitude at most [2^50].  What the
    loop body of [triangle] commits is stated over any number system
    ([Numbers]), of which the rationals and the doubles are instances, so
    that it holds with every rounding step of the source.

    Host.  The length limit of arrays ([2^32 - 1]) and the conversion of
    the arguments of [createImageData] to 32-bit integers are part of the
    model; what the browser can allocate is a parameter ([Host]).

    Buffers.  [#imageData.data] is a [Uint8ClampedArray]: fixed length, a
    store outside its range is ignored, a stored number is clamped and
    rounded to a byte.  [#zBuffer] is a plain JavaScript [Array]: a store at
    an index beyond its length extends it, a store at a negative index adds
    a property that later reads at that index see. *)

From Stdlib Require Import ZArith QArith Qround Qminmax Qabs Lia Lra Psatz.
From Stdlib Require PrimFloat SpecFloat FloatOps.
From stdpp Require Import base list gmap.

Local Open Scope Z_scope.

(** ** Data model *)

Definition Vector2 : Type := Q * Q.
Definition Vector3 : Type := Q * Q * Q.

(** [Color] is the four-number array [r, g, b, a]. *)
Definition Color : Type := Q * Q * Q * Q.

(** The DOM [ImageData]: width, height and the clamped byte array. *)
Record ImageData : Type := mkImageData {
  iwidth : Z;
  iheight : Z;
  idata : list Z
}.

(** A depth-buffer cell holds [-Infinity] or a finite number. *)
Inductive Depth : Type :=
| NegInf
| Fin (z : Q).

(** A JavaScript array of numbers: its [length] and its own properties
    keyed by integer (negative keys are ordinary properties). *)
Record JSArray : Type := mkJSArray {
  alength : Z;
  acells : gmap Z Depth
}.

Record TinyRenderer : Type := mkTinyRenderer {
  imageData : ImageData;
  zBuffer : JSArray
}.

Inductive Error : Type :=
| IndexSizeError
| RangeError.

Inductive Result (A : Type) : Type :=
| Ok (a : A)
| Throw (e : Error).
Arguments Ok {A} a.
Arguments Throw {A} e.

(** ** Number primitives *)

(** [Math.trunc]: rounding toward zero. *)
Definition trunc (q : Q) : Z := Z.quot (Qnum q) (Z.pos (Qden q)).

(** [a < b] on numbers. *)
Definition Qltb (a b : Q) : bool := negb (Qle_bool b a).

(** [Math.min(a, b, c)] and [Math.max(a, b, c)]. *)
Definition min3 (a b c : Q) : Q := Qmin (Qmin a b) c.
Definition max3 (a b c : Q) : Q := Qmax (Qmax a b) c.

(** The conversion a [Uint8ClampedArray] applies to a stored number:
    clamp to [0, 255], round to nearest, ties to even. *)
Definition toUint8Clamp (q : Q) : Z :=
  if Qle_bool q 0 then 0
  else if Qle_bool 255 q then 255
  else
    let f := Qfloor q in
    match Qcompare (q - inject_Z f) (1 # 2) with
    | Lt => f
    | Gt => f + 1
    | Eq => if Z.even f then f else f + 1
    end.

(** ** Typed-array and array accesses *)

(** [data[i] = v] on the clamped byte array: ignored out of range. *)
Definition store8 (data : list Z) (i : Z) (v : Q) : list Z :=
  if 0 <=? i then <[Z.to_nat i := toUint8Clamp v]> data else data.

(** [a[i]]: [None] is [undefined]. *)
Definition aget (a : JSArray) (i : Z) : option Depth := acells a !! i.

(** [a[i] = d]: an index at or beyond [length] extends the array. *)
Definition aset (a : JSArray) (i : Z) (d : Depth) : JSArray :=
  {| alength := if 0 <=? i then Z.max (alength a) (i + 1) else alength a;
     acells := <[i := d]> (acells a) |}.

(** The greatest length of a JavaScript array, [2^32 - 1]. *)
Definition MAX_ARRAY_LENGTH : Z := 4294967295.

(** What the host can allocate.  Memory is finite and its limit belongs to
    the browser, not to the program: [image_refused sw sh] is the error
    [createImageData] raises for an image the host has no room for, and
    [array_refused n] the error raised for an array of [n] numbers;
    [None] means the allocation is made. *)
Class Host : Type := mkHost {
  image_refused : Z -> Z -> option Error;
  array_refused : Z -> option Error
}.

(** A host with room for every image and every array of a legal length. *)
#[export] Instance roomy_host : Host :=
  {| image_refused := fun _ _ => None; array_refused := fun _ => None |}.

(** A host with room for at most [bytes] bytes of pixels and [cells] array
    elements, raising [RangeError] beyond. *)
Definition capped_host (bytes cells : Z) : Host :=
  {| image_refused := fun sw sh =>
       if bytes <? Z.abs sw * Z.abs sh * 4 then Some RangeError else None;
     array_refused := fun n => if cells <? n then Some RangeError else None |}.

(** [new Array(n).fill(d)]: a negative length, or one above [2^32 - 1],
    raises [RangeError]; so does a length the host has no room for. *)
Definition new_Array_fill {H : Host} (n : Z) (d : Depth) : Result JSArray :=
  if (n <? 0) || (MAX_ARRAY_LENGTH <? n) then Throw RangeError
  else
    match array_refused n with
    | Some e => Throw e
    | None =>
        Ok {| alength := n;
              acells := list_to_map ((fun i => (i, d)) <$> seqZ 0 n) |}
    end.

(** [z <= a[i]] as JavaScript evaluates it: comparing with [undefined] or
    with [-Infinity] (for finite [z]) is false. *)
Definition depth_le (z : Q) (cur : option Depth) : bool :=
  match cur with
  | Some (Fin d) => Qle_bool z d
  | Some NegInf => false
  | None => false
  end.

(** ** Imported constant *)

(** Modelled from the spec: [BYTES_PER_PIXEL] of [./image] is not among the
    sources; the pixel buffer has 4 bytes per pixel in RGBA order. *)
Definition BYTES_PER_PIXEL : Z := 4.

(** ** Host canvas API *)

(** The conversion of a number to the Web IDL type [long]: the integer
    modulo [2^32], taken in the range from [-2^31] to [2^31 - 1]. *)
Definition INT32_LIMIT : Z := 2147483648.

Definition to_int32 (n : Z) : Z :=
  (n + INT32_LIMIT) mod (2 * INT32_LIMIT) - INT32_LIMIT.

(** [ctx.createImageData(sw, sh)] of the HTML canvas, whose arguments are
    of type [long]: a zero dimension raises [IndexSizeError]; an image the
    host has no room for raises the host's error; otherwise the image has
    the absolute magnitudes of [sw] and [sh] and is transparent black. *)
Definition createImageData {H : Host} (sw sh : Z) : Result ImageData :=
  let sw := to_int32 sw in
  let sh := to_int32 sh in
  if (sw =? 0) || (sh =? 0) then Throw IndexSizeError
  else
    match image_refused sw sh with
    | Some e => Throw e
    | None =>
        Ok {| iwidth := Z.abs sw;
              iheight := Z.abs sh;
              idata := replicate (Z.to_nat (Z.abs sw * Z.abs sh * 4)) 0 |}
    end.

(** ** The renderer *)

Definition width (r : TinyRenderer) : Z := iwidth (imageData r).
Definition height (r : TinyRenderer) : Z := iheight (imageData r).

Definition set_data (r : TinyRenderer) (d : list Z) : TinyRenderer :=
  {| imageData := {| iwidth := width r; iheight := height r; idata := d |};
     zBuffer := zBuffer r |}.

Definition set_zBuffer (r : TinyRenderer) (a : JSArray) : TinyRenderer :=
  {| imageData := imageData r; zBuffer := a |}.

(** The constructor's fill loop
    [for (let i = 0; i < data.length; i += 4) { data[i + 0] = 0; ... }]. *)
Fixpoint fill_black (fuel : nat) (i : Z) (data : list Z) : list Z :=
  match fuel with
  | O => data
  | S fuel' =>
      if i <? Z.of_nat (length data) then
        let data := store8 data (i + 0) 0 in
        let data := store8 data (i + 1) 0 in
        let data := store8 data (i + 2) 0 in
        let data := store8 data (i + 3) 255 in
        fill_black fuel' (i + 4) data
      else data
  end.

Definition constructor {H : Host} (width height : Z) : Result TinyRenderer :=
  match createImageData width height with
  | Throw e => Throw e
  | Ok img =>
      let data := fill_black (length (idata img)) 0 (idata img) in
      match new_Array_fill (width * height) NegInf with
      | Throw e => Throw e
      | Ok zb =>
          Ok {| imageData := {| iwidth := iwidth img;
                                iheight := iheight img;
                                idata := data |};
                zBuffer := zb |}
      end
  end.

(** [color[i]] for the indices the pixel loop uses. *)
Definition channel (c : Color) (i : Z) : Q :=
  let '(r, g, b, a) := c in
  if i =? 0 then r else if i =? 1 then g else if i =? 2 then b else a.

(** [pixel(v, color)]. *)
Definition pixel (r : TinyRenderer) (v : Vector2) (color : Color) : TinyRenderer :=
  let x := trunc (fst v) in
  let y := trunc (snd v) in
  let offset := (y * width r + x) * BYTES_PER_PIXEL in
  set_data r
    (foldl (fun data i => store8 data (offset + i) (channel color i))
           (idata (imageData r)) (seqZ 0 BYTES_PER_PIXEL)).

(** ** Line rasterizer *)

(** The body of the [for (let x = x0; x <= x1; x += 1)] loop of [line],
    iterated; [fuel] bounds the number of iterations.  The arithmetic is
    that of the rationals, which is what the source computes as long as
    the numbers involved are exactly represented (integers below [2^53] in
    magnitude, for one). *)
Fixpoint line_loop (fuel : nat) (steep : bool) (x1 dx dy sy : Q)
    (color : Color) (x y carry : Q) (r : TinyRenderer) : TinyRenderer :=
  match fuel with
  | O => r
  | S fuel' =>
      if Qle_bool x x1 then
        let r := if steep then pixel r (y, x) color
                 else pixel r (x, y) color in
        let carry := (carry + sy)%Q in
        if Qltb dx carry then
          line_loop fuel' steep x1 dx dy sy color (x + 1)%Q
            (y + (if Qltb 0 dy then 1 else -1))%Q (carry - dx * 2)%Q r
        else
          line_loop fuel' steep x1 dx dy sy color (x + 1)%Q y carry r
      else r
  end.

(** Iterations the loop makes from [x0] up to [x1]. *)
Definition line_fuel (x0 x1 : Q) : nat := Z.to_nat (Qfloor (x1 - x0) + 1).

(** The endpoints after the two conditional swaps of [line]:
    [(steep, x0, y0, x1, y1)]. *)
Definition line_setup (v0 v1 : Vector2) : bool * Q * Q * Q * Q :=
  let '(x0, y0) := v0 in
  let '(x1, y1) := v1 in
  let '(steep, x0, y0, x1, y1) :=
    if Qltb (Qabs (x1 - x0)) (Qabs (y1 - y0))
    then (true, y0, x0, y1, x1)
    else (false, x0, y0, x1, y1) in
  if Qltb x1 x0 then (steep, x1, y1, x0, y0) else (steep, x0, y0, x1, y1).

(** [line(v0, v1, color)]. *)
Definition line (r : TinyRenderer) (v0 v1 : Vector2) (color : Color)
    : TinyRenderer :=
  let '(steep, x0, y0, x1, y1) := line_setup v0 v1 in
  let dx := (x1 - x0)%Q in
  let dy := (y1 - y0)%Q in
  let sy := (Qabs dy * 2)%Q in
  line_loop (line_fuel x0 x1) steep x1 dx dy sy color x0 y0 0%Q r.

(** The arguments of the successive [this.pixel] calls of the loop. *)
Fixpoint line_plots_loop (fuel : nat) (steep : bool) (x1 dx dy sy : Q)
    (x y carry : Q) : list Vector2 :=
  match fuel with
  | O => []
  | S fuel' =>
      if Qle_bool x x1 then
        let p := if steep then (y, x) else (x, y) in
        let carry := (carry + sy)%Q in
        if Qltb dx carry then
          p :: line_plots_loop fuel' steep x1 dx dy sy (x + 1)%Q
                 (y + (if Qltb 0 dy then 1 else -1))%Q (carry - dx * 2)%Q
        else
          p :: line_plots_loop fuel' steep x1 dx dy sy (x + 1)%Q y carry
      else []
  end.

Definition line_plots (v0 v1 : Vector2) : list Vector2 :=
  let '(steep, x0, y0, x1, y1) := line_setup v0 v1 in
  let dx := (x1 - x0)%Q in
  let dy := (y1 - y0)%Q in
  let sy := (Qabs dy * 2)%Q in
  line_plots_loop (line_fuel x0 x1) steep x1 dx dy sy x0 y0 0%Q.

(** ** Triangle rasterizer *)

Section Rasterizer.

(** The three helpers [triangle] imports; their modules are not among the
    sources, so the rasterizer is defined for any implementation. *)
Variable barycentric : Vector3 -> Vector3 -> Vector3 -> Vector2 -> Vector3.
Variable getPixel : ImageData -> Vector2 -> Color.
Variable scale : Vector3 -> Q -> Vector3.

(** The interpolated depth [v0[2] * bc[0] + v1[2] * bc[1] + v2[2] * bc[2]]. *)
Definition interp_z (v0 v1 v2 bc : Vector3) : Q :=
  let '(_, _, z0) := v0 in
  let '(_, _, z1) := v1 in
  let '(_, _, z2) := v2 in
  let '(b0, b1, b2) := bc in
  (z0 * b0 + z1 * b1 + z2 * b2)%Q.

(** The rejection test of the inner loop (the [continue] branch). *)
Definition rejected (bc : Vector3) (z : Q) (cur : option Depth) : bool :=
  let '(b0, b1, b2) := bc in
  Qltb b0 0 || Qltb b1 0 || Qltb b2 0 || depth_le z cur.

(** The color handed to [this.pixel]: the texel at
    [(u * texture.width, (1 - v) * texture.height)] with its first three
    channels passed through [scale]. *)
Definition shade (t0 t1 t2 : Vector2) (bc : Vector3) (intensity : Q)
    (texture : ImageData) : Color :=
  let '(b0, b1, b2) := bc in
  let u := (fst t0 * b0 + fst t1 * b1 + fst t2 * b2)%Q in
  let v := (snd t0 * b0 + snd t1 * b1 + snd t2 * b2)%Q in
  let color := getPixel texture
                 ((u * inject_Z (iwidth texture))%Q,
                  (* flip y *)
                  ((1 - v) * inject_Z (iheight texture))%Q) in
  let '(cr, cg, cb, ca) := color in
  let '(sr, sg, sb) := scale (cr, cg, cb) intensity in
  (sr, sg, sb, ca).

(** The body of the inner loop of [triangle] at the integer point
    [(x, y)]. *)
Definition triangle_pixel (v0 v1 v2 : Vector3) (t0 t1 t2 : Vector2)
    (intensity : Q) (texture : ImageData) (r : TinyRenderer) (x y : Z)
    : TinyRenderer :=
  let bc := barycentric v0 v1 v2 (inject_Z x, inject_Z y) in
  let z := interp_z v0 v1 v2 bc in
  if rejected bc z (aget (zBuffer r) (y * width r + x)) then r
  else
    let color := shade t0 t1 t2 bc intensity texture in
    let r := set_zBuffer r (aset (zBuffer r) (y * width r + x) (Fin z)) in
    pixel r (inject_Z x, inject_Z y) color.

(** The bounding box [(xmin, xmax, ymin, ymax)]. *)
Definition bbox (v0 v1 v2 : Vector3) : Z * Z * Z * Z :=
  let '(x0, y0, _) := v0 in
  let '(x1, y1, _) := v1 in
  let '(x2, y2, _) := v2 in
  (trunc (min3 x0 x1 x2), trunc (max3 x0 x1 x2),
   trunc (min3 y0 y1 y2), trunc (max3 y0 y1 y2)).

(** [for (let i = lo; i <= hi; i++)]: the values [i] takes. *)
Definition range (lo hi : Z) : list Z := seqZ lo (hi - lo + 1).

(** [triangle(v0, v1, v2, t0, t1, t2, intensity, texture)]. *)
Definition triangle (r : TinyRenderer) (v0 v1 v2 : Vector3)
    (t0 t1 t2 : Vector2) (intensity : Q) (texture : ImageData)
    : TinyRenderer :=
  let '(xmin, xmax, ymin, ymax) := bbox v0 v1 v2 in
  foldl (fun r x =>
           foldl (fun r y =>
                    triangle_pixel v0 v1 v2 t0 t1 t2 intensity texture r x y)
                 r (range ymin ymax))
        r (range xmin xmax).

(** ** Sequences of draw calls *)

Inductive Call : Type :=
| DrawPixel (p : Vector2) (color : Color)
| DrawLine (p0 p1 : Vector2) (color : Color)
| DrawTriangle (v0 v1 v2 : Vector3) (t0 t1 t2 : Vector2)
    (intensity : Q) (texture : ImageData).

Definition run_call (r : TinyRenderer) (c : Call) : TinyRenderer :=
  match c with
  | DrawPixel p color => pixel r p color
  | DrawLine p0 p1 color => line r p0 p1 color
  | DrawTriangle v0 v1 v2 t0 t1 t2 intensity texture =>
      triangle r v0 v1 v2 t0 t1 t2 intensity texture
  end.

Definition run_calls (r : TinyRenderer) (cs : list Call) : TinyRenderer :=
  foldl run_call r cs.

End Rasterizer.

(** ** The imported helpers, as the specification describes them *)

(** The 2D projection of a vertex. *)
Definition xy (v : Vector3) : Vector2 := let '(x, y, _) := v in (x, y).

(** Edge function: twice the signed area of the triangle [a], [b], [p]. *)
Definition edge (a b p : Vector2) : Q :=
  ((fst b - fst a) * (snd p - snd a) - (snd b - snd a) * (fst p - fst a))%Q.

(** Twice the signed area of the 2D projection of a triangle. *)
Definition area2 (v0 v1 v2 : Vector3) : Q := edge (xy v0) (xy v1) (xy v2).

(** Modelled from the spec: [barycentric] of [./triangle] is not among the
    sources.  Weights are the cross-product ratios relative to the full
    triangle area; for zero signed area the sentinel [(-1, 1, 1)]. *)
Definition barycentric_std (v0 v1 v2 : Vector3) (p : Vector2) : Vector3 :=
  let a := area2 v0 v1 v2 in
  if Qeq_bool a 0 then (-1, 1, 1)%Q
  else ((edge (xy v1) (xy v2) p / a)%Q,
        (edge (xy v2) (xy v0) p / a)%Q,
        (edge (xy v0) (xy v1) p / a)%Q).

(** Modelled from the spec: [getPixel] of [./image] is not among the
    sources.  The coordinates are truncated to texel indices and the texel
    at the row-major offset is returned unchanged; indices outside the
    texture are a violated precondition (a missing byte reads as 0 here). *)
Definition getPixel_std (img : ImageData) (p : Vector2) : Color :=
  let offset := (trunc (snd p) * iwidth img + trunc (fst p)) * BYTES_PER_PIXEL in
  let at_ (i : Z) : Q :=
    if 0 <=? offset + i
    then inject_Z (default 0 (idata img !! Z.to_nat (offset + i)))
    else 0%Q in
  (at_ 0, at_ 1, at_ 2, at_ 3).

(** Modelled from the spec: [scale] of [./linear-algebra] is not among the
    sources.  Every component is multiplied by the scalar. *)
Definition scale_std (v : Vector3) (k : Q) : Vector3 :=
  let '(a, b, c) := v in ((a * k)%Q, (b * k)%Q, (c * k)%Q).

(** ** Observations used in the statements *)

(** [data[i]] read back from a byte array. *)
Definition data_at (d : list Z) (i : Z) : option Z :=
  if 0 <=? i then d !! Z.to_nat i else None.

(** The byte at index [i] of the pixel buffer. *)
Definition byte (r : TinyRenderer) (i : Z) : option Z :=
  data_at (idata (imageData r)) i.

(** The four bytes of the pixel with row-major index [i]. *)
Definition bytes_at (r : TinyRenderer) (i : Z) : list (option Z) :=
  (fun k => byte r (i * BYTES_PER_PIXEL + k)) <$> [0; 1; 2; 3].

(** The four bytes of pixel [(x, y)]. *)
Definition pixel_bytes (r : TinyRenderer) (x y : Z) : list (option Z) :=
  bytes_at r (y * width r + x).

(** The pixel a coordinate pair addresses once truncated. *)
Definition pixel_of (p : Vector2) : Z * Z := (trunc (fst p), trunc (snd p)).

(** The bytes a color becomes when stored. *)
Definition stored (c : Color) : list (option Z) :=
  let '(r, g, b, a) := c in
  [Some (toUint8Clamp r); Some (toUint8Clamp g);
   Some (toUint8Clamp b); Some (toUint8Clamp a)].

Definition white : Color := (255, 255, 255, 255)%Q.

(** The depth cell of pixel [(x, y)]. *)
Definition depth_at (r : TinyRenderer) (x y : Z) : option Depth :=
  aget (zBuffer r) (y * width r + x).

(** [(x, y)] addresses a pixel of the buffer. *)
Definition in_buffer (r : TinyRenderer) (x y : Z) : Prop :=
  0 <= x < width r /\ 0 <= y < height r.

(** The pixel buffer has the length its dimensions call for; this holds
    from construction on, as a typed array is never resized. *)
Definition wf (r : TinyRenderer) : Prop :=
  0 <= width r /\ 0 <= height r /\
  Z.of_nat (length (idata (imageData r))) = width r * height r * BYTES_PER_PIXEL.

(** The depth buffer is a flat array of exactly [width * height] cells. *)
Definition zflat (r : TinyRenderer) : Prop :=
  alength (zBuffer r) = width r * height r /\
  forall i, is_Some (aget (zBuffer r) i) <-> 0 <= i < width r * height r.







(** A weight vector with a negative component. *)
Definition has_negative (bc : Vector3) : Prop :=
  let '(b0, b1, b2) := bc in (b0 < 0 \/ b1 < 0 \/ b2 < 0)%Q.



(** The points of a bounding-box scan, in the order the nested loops of
    [triangle] visit them. *)
Definition grid (xs ys : list Z) : list (Z * Z) :=
  xs ≫= (fun x => pair x <$> ys).

(** The bounding box of a triangle lies inside the buffer. *)
Definition bbox_in_buffer (r : TinyRenderer) (v0 v1 v2 : Vector3) : Prop :=
  let '(xmin, xmax, ymin, ymax) := bbox v0 v1 v2 in
  0 <= xmin /\ xmax < width r /\ 0 <= ymin /\ ymax < height r.

(** A draw call all of whose computed pixels lie inside the buffer. *)
Definition call_in_buffer (r : TinyRenderer) (c : Call) : Prop :=
  match c with
  | DrawTriangle v0 v1 v2 _ _ _ _ _ => bbox_in_buffer r v0 v1 v2
  | _ => True
  end.


(** The inner loop of [triangle] would reject the point [(x, y)] in the
    state [r]. *)
Definition settled
    (barycentric : Vector3 -> Vector3 -> Vector3 -> Vector2 -> Vector3)
    (v0 v1 v2 : Vector3) (r : TinyRenderer) (p : Z * Z) : Prop :=
  let bc := barycentric v0 v1 v2 (inject_Z (fst p), inject_Z (snd p)) in
  rejected bc (interp_z v0 v1 v2 bc)
    (aget (zBuffer r) (snd p * width r + fst p)) = true.

(** The renderer a successful construction returns (an empty renderer
    stands in where construction raises). *)
Definition renderer_of (res : Result TinyRenderer) : TinyRenderer :=
  match res with
  | Ok r => r
  | Throw _ =>
      {| imageData := {| iwidth := 0; iheight := 0; idata := [] |};
         zBuffer := {| alength := 0; acells := ∅ |} |}
  end.

(** ** Concrete inputs for the examples *)

(** A freshly constructed renderer. *)
Definition fresh (w h : Z) : TinyRenderer := renderer_of (constructor w h).

(** A 2 by 2 texture, white throughout. *)
Definition white_texture : ImageData :=
  {| iwidth := 2; iheight := 2; idata := replicate 16 255 |}.

(** The texture coordinate of the middle of a texture. *)
Definition mid : Vector2 := (1 # 2, 1 # 2)%Q.

(** [triangle] with the helpers of the specification. *)
Definition triangle_std : TinyRenderer -> Vector3 -> Vector3 -> Vector3 ->
    Vector2 -> Vector2 -> Vector2 -> Q -> ImageData -> TinyRenderer :=
  triangle barycentric_std getPixel_std scale_std.

(** ** Further observations *)

(** Every byte of the pixel buffer is a byte value. *)
Definition bytes_in_range (r : TinyRenderer) : Prop :=
  Forall (fun b => 0 <= b <= 255) (idata (imageData r)).

(** The order in which a depth cell may change: an absent cell may become
    anything, [-Infinity] may become any number, a number may only grow. *)
Definition depth_below (a b : option Depth) : Prop :=
  match a, b with
  | None, _ => True
  | Some NegInf, Some _ => True
  | Some (Fin x), Some (Fin y) => (x <= y)%Q
  | Some _, _ => False
  end.

(** The integer point [(x, y)] is scanned by the loops of [triangle]. *)
Definition in_bbox (v0 v1 v2 : Vector3) (x y : Z) : Prop :=
  let '(xmin, xmax, ymin, ymax) := bbox v0 v1 v2 in
  xmin <= x <= xmax /\ ymin <= y <= ymax.

(** [2^53]: every integer of smaller magnitude is a double, and below it
    [x + 1] differs from [x] in double arithmetic. *)
Definition SAFE_INTEGER : Z := 9007199254740992.

(** A coordinate of magnitude at most [2^50].  Between integer end points
    with such coordinates every number the loop of [line] computes is an
    integer of magnitude below [2^53]: the extents are at most [2^51], [sy]
    is at most [2^52] and [carry] stays within [3 * 2^51] of zero; double
    arithmetic is exact there. *)
Definition exact_coordinate (a : Z) : Prop := Z.abs a <= 1125899906842624.

(** The loop of [line] on integers: the pixels plotted from the loop state
    [(x, y, carry)], for comparison with [line_plots_loop]. *)
Fixpoint line_pixels_loop (fuel : nat) (steep : bool) (x1 dx dy sy : Z)
    (x y carry : Z) : list (Z * Z) :=
  match fuel with
  | O => []
  | S fuel' =>
      if x <=? x1 then
        let p := if steep then (y, x) else (x, y) in
        let carry := carry + sy in
        if dx <? carry then
          p :: line_pixels_loop fuel' steep x1 dx dy sy (x + 1)
                 (y + (if 0 <? dy then 1 else -1)) (carry - dx * 2)
        else
          p :: line_pixels_loop fuel' steep x1 dx dy sy (x + 1) y carry
      else []
  end.

(** [line] on integer end points, as a list of pixels. *)
Definition line_pixels (p0 p1 : Z * Z) : list (Z * Z) :=
  let '(x0, y0) := p0 in
  let '(x1, y1) := p1 in
  let '(steep, x0, y0, x1, y1) :=
    if Z.abs (x1 - x0) <? Z.abs (y1 - y0)
    then (true, y0, x0, y1, x1)
    else (false, x0, y0, x1, y1) in
  let '(x0, y0, x1, y1) :=
    if x1 <? x0 then (x1, y1, x0, y0) else (x0, y0, x1, y1) in
  line_pixels_loop (Z.to_nat (x1 - x0 + 1)) steep x1 (x1 - x0) (y1 - y0)
    (Z.abs (y1 - y0) * 2) x0 y0 0.

(** ** The loop body of [triangle] over any number system

    The inner loop of [triangle] computes with the numbers of the host.
    Its body is defined here once more, for any number system that has the
    operations the body applies, so that what it commits can be stated
    with every rounding step in place.  The rationals used above are one
    instance, the IEEE doubles of JavaScript another. *)

(** The operations of the loop body on numbers [N] and depth cells [C]:
    [ntrunc] is [Math.trunc] followed by the use of the result as an index
    ([None] where the result is no integer), [nabs] is [Math.abs],
    [nltb a b] is [a < b] and [nleb a b] is [a <= b], [cell_leb z c] is
    [z <= c], [to_cell] is the value an array stores for a number and
    [to_byte] the conversion of a [Uint8ClampedArray]. *)
Class Numbers (N C : Type) : Type := mkNumbers {
  nadd : N -> N -> N;
  nsub : N -> N -> N;
  nmul : N -> N -> N;
  nabs : N -> N;
  of_int : Z -> N;
  ntrunc : N -> option Z;
  nltb : N -> N -> bool;
  nleb : N -> N -> bool;
  cell_leb : N -> C -> bool;
  to_cell : N -> C;
  to_byte : N -> Z
}.

(** An array of depth cells and a renderer over cells [C]. *)
Record NArray (C : Type) : Type := mkNArray {
  nlength : Z;
  ncells : gmap Z C
}.
Arguments mkNArray {C} _ _.
Arguments nlength {C} _.
Arguments ncells {C} _.

Record NRenderer (C : Type) : Type := mkNRenderer {
  nimage : ImageData;
  ndepth : NArray C
}.
Arguments mkNRenderer {C} _ _.
Arguments nimage {C} _.
Arguments ndepth {C} _.

Section NumberSystem.

Context {N C : Type} {Num : Numbers N C}.

Variable barycentric :
  N * N * N -> N * N * N -> N * N * N -> N * N -> N * N * N.
Variable getPixel : ImageData -> N * N -> N * N * N * N.
Variable scale : N * N * N -> N -> N * N * N.

(** [data[i] = v] on the clamped byte array. *)
Definition nstore8 (data : list Z) (i : Z) (v : N) : list Z :=
  if 0 <=? i then <[Z.to_nat i := to_byte v]> data else data.

Definition nchannel (c : N * N * N * N) (i : Z) : N :=
  let '(r, g, b, a) := c in
  if i =? 0 then r else if i =? 1 then g else if i =? 2 then b else a.

(** [pixel(v, color)]; a store at an index that is no integer is ignored by
    the typed array. *)
Definition npixel (r : NRenderer C) (v : N * N) (color : N * N * N * N)
    : NRenderer C :=
  match ntrunc (fst v), ntrunc (snd v) with
  | Some x, Some y =>
      let offset := (y * iwidth (nimage r) + x) * BYTES_PER_PIXEL in
      {| nimage :=
           {| iwidth := iwidth (nimage r);
              iheight := iheight (nimage r);
              idata :=
                foldl (fun data i =>
                         nstore8 data (offset + i) (nchannel color i))
                      (idata (nimage r)) (seqZ 0 BYTES_PER_PIXEL) |};
         ndepth := ndepth r |}
  | _, _ => r
  end.

(** [a[i]] and [a[i] = d] on the depth array. *)
Definition naget (a : NArray C) (i : Z) : option C := ncells a !! i.

Definition naset (a : NArray C) (i : Z) (d : C) : NArray C :=
  {| nlength := if 0 <=? i then Z.max (nlength a) (i + 1) else nlength a;
     ncells := <[i := d]> (ncells a) |}.

(** [v0[2] * bc[0] + v1[2] * bc[1] + v2[2] * bc[2]], evaluated from the
    left. *)
Definition ninterp_z (v0 v1 v2 bc : N * N * N) : N :=
  let '(_, _, z0) := v0 in
  let '(_, _, z1) := v1 in
  let '(_, _, z2) := v2 in
  let '(b0, b1, b2) := bc in
  nadd (nadd (nmul z0 b0) (nmul z1 b1)) (nmul z2 b2).

(** [bc[0] < 0 || bc[1] < 0 || bc[2] < 0 || z <= zBuffer[...]]; a
    comparison with [undefined] is false. *)
Definition nrejected (bc : N * N * N) (z : N) (cur : option C) : bool :=
  let '(b0, b1, b2) := bc in
  nltb b0 (of_int 0) || nltb b1 (of_int 0) || nltb b2 (of_int 0) ||
  match cur with
  | Some c => cell_leb z c
  | None => false
  end.

Definition nshade (t0 t1 t2 : N * N) (bc : N * N * N) (intensity : N)
    (texture : ImageData) : N * N * N * N :=
  let '(b0, b1, b2) := bc in
  let u := nadd (nadd (nmul (fst t0) b0) (nmul (fst t1) b1))
                (nmul (fst t2) b2) in
  let v := nadd (nadd (nmul (snd t0) b0) (nmul (snd t1) b1))
                (nmul (snd t2) b2) in
  let color := getPixel texture
                 (nmul u (of_int (iwidth texture)),
                  (* flip y *)
                  nmul (nsub (of_int 1) v) (of_int (iheight texture))) in
  let '(cr, cg, cb, ca) := color in
  let '(sr, sg, sb) := scale (cr, cg, cb) intensity in
  (sr, sg, sb, ca).

(** The body of the inner loop of [triangle] at the loop indices
    [(x, y)]. *)
Definition ntriangle_pixel (v0 v1 v2 : N * N * N) (t0 t1 t2 : N * N)
    (intensity : N) (texture : ImageData) (r : NRenderer C) (x y : Z)
    : NRenderer C :=
  let bc := barycentric v0 v1 v2 (of_int x, of_int y) in
  let z := ninterp_z v0 v1 v2 bc in
  if nrejected bc z (naget (ndepth r) (y * iwidth (nimage r) + x)) then r
  else
    let color := nshade t0 t1 t2 bc intensity texture in
    let r := {| nimage := nimage r;
                ndepth := naset (ndepth r) (y * iwidth (nimage r) + x)
                            (to_cell z) |} in
    npixel r (of_int x, of_int y) color.

(** The loop of [line] and the end points after its two swaps, as
    [line_plots_loop] and [line_setup]; the number of iterations is
    bounded from outside, as the loop need not end in every number
    system. *)
Fixpoint nline_plots_loop (fuel : nat) (steep : bool) (x1 dx dy sy : N)
    (x y carry : N) : list (N * N) :=
  match fuel with
  | O => []
  | S fuel' =>
      if nleb x x1 then
        let p := if steep then (y, x) else (x, y) in
        let carry := nadd carry sy in
        if nltb dx carry then
          p :: nline_plots_loop fuel' steep x1 dx dy sy (nadd x (of_int 1))
                 (nadd y (if nltb (of_int 0) dy then of_int 1
                          else of_int (-1)))
                 (nsub carry (nmul dx (of_int 2)))
        else
          p :: nline_plots_loop fuel' steep x1 dx dy sy (nadd x (of_int 1))
                 y carry
      else []
  end.

Definition nline_setup (v0 v1 : N * N) : bool * N * N * N * N :=
  let '(x0, y0) := v0 in
  let '(x1, y1) := v1 in
  let '(steep, x0, y0, x1, y1) :=
    if nltb (nabs (nsub x1 x0)) (nabs (nsub y1 y0))
    then (true, y0, x0, y1, x1)
    else (false, x0, y0, x1, y1) in
  if nltb x1 x0 then (steep, x1, y1, x0, y0) else (steep, x0, y0, x1, y1).

(** The arguments of the first [fuel] calls of [this.pixel] that
    [line(v0, v1, color)] makes. *)
Definition nline_plots (fuel : nat) (v0 v1 : N * N) : list (N * N) :=
  let '(steep, x0, y0, x1, y1) := nline_setup v0 v1 in
  let dx := nsub x1 x0 in
  let dy := nsub y1 y0 in
  let sy := nmul (nabs dy) (of_int 2) in
  nline_plots_loop fuel steep x1 dx dy sy x0 y0 (of_int 0).

End NumberSystem.

(** Observations on a renderer over any cells. *)
Definition npixel_bytes {C : Type} (r : NRenderer C) (x y : Z)
    : list (option Z) :=
  (fun k => data_at (idata (nimage r))
              ((y * iwidth (nimage r) + x) * BYTES_PER_PIXEL + k))
    <$> [0; 1; 2; 3].

Definition ndepth_at {C : Type} (r : NRenderer C) (x y : Z) : option C :=
  ncells (ndepth r) !! (y * iwidth (nimage r) + x).

Definition nin_buffer {C : Type} (r : NRenderer C) (x y : Z) : Prop :=
  0 <= x < iwidth (nimage r) /\ 0 <= y < iheight (nimage r).

Definition nwf {C : Type} (r : NRenderer C) : Prop :=
  0 <= iwidth (nimage r) /\ 0 <= iheight (nimage r) /\
  Z.of_nat (length (idata (nimage r))) =
    iwidth (nimage r) * iheight (nimage r) * BYTES_PER_PIXEL.

(** *** The rationals *)

#[export] Instance exact_numbers : Numbers Q Depth :=
  {| nadd := Qplus;
     nsub := Qminus;
     nmul := Qmult;
     nabs := Qabs;
     of_int := inject_Z;
     ntrunc := fun q => Some (trunc q);
     nltb := Qltb;
     nleb := Qle_bool;
     cell_leb := fun z c =>
       match c with NegInf => false | Fin d => Qle_bool z d end;
     to_cell := Fin;
     to_byte := toUint8Clamp |}.

(** A renderer of the sections above as a renderer over [Depth] cells. *)
Definition as_nrenderer (r : TinyRenderer) : NRenderer Depth :=
  {| nimage := imageData r;
     ndepth := {| nlength := alength (zBuffer r);
                  ncells := acells (zBuffer r) |} |}.

(** *** IEEE doubles *)

Definition double : Set := PrimFloat.float.

(** The double nearest to an integer (ties to even). *)
Definition double_of_int (z : Z) : double :=
  FloatOps.SF2Prim
    (SpecFloat.binary_normalize FloatOps.prec FloatOps.emax z 0 false).

(** The rational a finite double stands for. *)
Definition double_value (f : double) : option Q :=
  match FloatOps.Prim2SF f with
  | SpecFloat.S754_zero _ => Some 0%Q
  | SpecFloat.S754_finite s m e =>
      Some ((if s then -1 else 1) * inject_Z (Z.pos m) * Qpower 2 e)%Q
  | _ => None
  end.

(** [Math.trunc] of a double, where the result is an integer. *)
Definition double_trunc (f : double) : option Z :=
  match double_value f with
  | Some q => Some (trunc q)
  | None => None
  end.

(** The conversion of a [Uint8ClampedArray] store: [NaN] becomes 0, the
    infinities are clamped. *)
Definition double_to_byte (f : double) : Z :=
  match FloatOps.Prim2SF f with
  | SpecFloat.S754_nan => 0
  | SpecFloat.S754_zero _ => 0
  | SpecFloat.S754_infinity s => if s then 0 else 255
  | SpecFloat.S754_finite _ _ _ =>
      match double_value f with
      | Some q => toUint8Clamp q
      | None => 0
      end
  end.

#[export] Instance double_numbers : Numbers double double :=
  {| nadd := PrimFloat.add;
     nsub := PrimFloat.sub;
     nmul := PrimFloat.mul;
     nabs := PrimFloat.abs;
     of_int := double_of_int;
     ntrunc := double_trunc;
     nltb := PrimFloat.ltb;
     nleb := PrimFloat.leb;
     cell_leb := PrimFloat.leb;
     to_cell := fun z => z;
     to_byte := double_to_byte |}.

(** The edge function of [edge], computed on doubles. *)
Definition edge_double (a b p : double * double) : double :=
  PrimFloat.sub
    (PrimFloat.mul (PrimFloat.sub (fst b) (fst a))
                   (PrimFloat.sub (snd p) (snd a)))
    (PrimFloat.mul (PrimFloat.sub (snd b) (snd a))
                   (PrimFloat.sub (fst p) (fst a))).

(** Modelled from the spec: [barycentric] of [./triangle], as
    [barycentric_std], computed on doubles. *)
Definition barycentric_double (v0 v1 v2 : double * double * double)
    (p : double * double) : double * double * double :=
  let xy (v : double * double * double) := let '(x, y, _) := v in (x, y) in
  let a := edge_double (xy v0) (xy v1) (xy v2) in
  if PrimFloat.eqb a (double_of_int 0)
  then (double_of_int (-1), double_of_int 1, double_of_int 1)
  else (PrimFloat.div (edge_double (xy v1) (xy v2) p) a,
        PrimFloat.div (edge_double (xy v2) (xy v0) p) a,
        PrimFloat.div (edge_double (xy v0) (xy v1) p) a).

(** Modelled from the spec: [getPixel] of [./image], as [getPixel_std],
    with the texel bytes returned as doubles. *)
Definition getPixel_double (img : ImageData) (p : double * double)
    : double * double * double * double :=
  let offset :=
    (default 0 (double_trunc (snd p)) * iwidth img +
     default 0 (double_trunc (fst p))) * BYTES_PER_PIXEL in
  let at_ (i : Z) : double :=
    if 0 <=? offset + i
    then double_of_int (default 0 (idata img !! Z.to_nat (offset + i)))
    else double_of_int 0 in
  (at_ 0, at_ 1, at_ 2, at_ 3).

(** Modelled from the spec: [scale] of [./linear-algebra], as [scale_std],
    computed on doubles. *)
Definition scale_double (v : double * double * double) (k : double)
    : double * double * double :=
  let '(a, b, c) := v in
  (PrimFloat.mul a k, PrimFloat.mul b k, PrimFloat.mul c k).

(** The renderer [new TinyRenderer(w, h)] leaves, its depth cells as
    doubles. *)
Definition fresh_double (w h : Z) : NRenderer double :=
  {| nimage := imageData (fresh w h);
     ndepth := {| nlength := alength (zBuffer (fresh w h));
                  ncells := (fun _ => PrimFloat.neg_infinity) <$>
                              acells (zBuffer (fresh w h)) |} |}.

(** The pixel a pair of doubles addresses once truncated. *)
Definition double_pixel_of (p : double * double) : option Z * option Z :=
  (double_trunc (fst p), double_trunc (snd p)).

(** A 2 by 2 texture with sixteen different bytes. *)
Definition numbered_texture : ImageData :=
  {| iwidth := 2; iheight := 2;
     idata := [10; 20; 30; 40; 50; 60; 70; 80;
               90; 100; 110; 120; 130; 140; 150; 160] |}.

(** ** Basic facts: numbers and byte stores *)

Lemma trunc_inject_Z (z : Z) : trunc (inject_Z z) = z.
Proof. unfold trunc. simpl. apply Z.quot_1_r. Qed.

Lemma Qltb_true (a b : Q) : Qltb a b = true <-> (a < b)%Q.
Proof.
  unfold Qltb. rewrite negb_true_iff.
  destruct (Qle_bool b a) eqn:E.
  - apply Qle_bool_iff in E. split; [discriminate | intros H; lra].
  - split; [intros _ | reflexivity].
    apply Qnot_le_lt. intros H. apply Qle_bool_iff in H. congruence.
Qed.

Lemma Qltb_false (a b : Q) : Qltb a b = false <-> (b <= a)%Q.
Proof.
  unfold Qltb. rewrite negb_false_iff. apply Qle_bool_iff.
Qed.

Lemma store8_length (d : list Z) (i : Z) (v : Q) :
  length (store8 d i v) = length d.
Proof.
  unfold store8. destruct (0 <=? i); [apply length_insert | reflexivity].
Qed.

Lemma data_at_store8 (d : list Z) (i : Z) (v : Q) (j : Z) :
  data_at (store8 d i v) j =
  if decide (j = i /\ 0 <= i < Z.of_nat (length d))
  then Some (toUint8Clamp v) else data_at d j.
Proof.
  unfold data_at, store8.
  destruct (0 <=? j) eqn:Hj; destruct (0 <=? i) eqn:Hi;
    case_decide as H; try reflexivity; try lia.
  - destruct H as [-> H]. apply list_lookup_insert_eq. lia.
  - destruct (decide (i = j)) as [-> | Hne].
    + rewrite list_insert_ge by lia. reflexivity.
    + apply list_lookup_insert_ne. lia.
Qed.

Lemma data_at_None (d : list Z) (j : Z) :
  ~ 0 <= j < Z.of_nat (length d) -> data_at d j = None.
Proof.
  unfold data_at. intros H. destruct (0 <=? j) eqn:Hj; [| reflexivity].
  apply lookup_ge_None. lia.
Qed.

Lemma data_at_ext (d1 d2 : list Z) :
  (forall j, data_at d1 j = data_at d2 j) -> d1 = d2.
Proof.
  intros H. apply list_eq. intros n.
  specialize (H (Z.of_nat n)). unfold data_at in H.
  destruct (Z.leb_spec 0 (Z.of_nat n)) as [_ | Hn]; [| lia].
  rewrite Nat2Z.id in H. exact H.
Qed.

(** ** Facts about [pixel] *)

Lemma pixel_unfold (r : TinyRenderer) (v : Vector2) (color : Color) :
  pixel r v color =
  let off := (trunc (snd v) * width r + trunc (fst v)) * 4 in
  set_data r
    (store8 (store8 (store8 (store8 (idata (imageData r))
       (off + 0) (channel color 0)) (off + 1) (channel color 1))
       (off + 2) (channel color 2)) (off + 3) (channel color 3)).
Proof. reflexivity. Qed.

Lemma pixel_width (r : TinyRenderer) (v : Vector2) (c : Color) :
  width (pixel r v c) = width r.
Proof. reflexivity. Qed.

Lemma pixel_height (r : TinyRenderer) (v : Vector2) (c : Color) :
  height (pixel r v c) = height r.
Proof. reflexivity. Qed.

Lemma pixel_zBuffer (r : TinyRenderer) (v : Vector2) (c : Color) :
  zBuffer (pixel r v c) = zBuffer r.
Proof. reflexivity. Qed.

Lemma pixel_length (r : TinyRenderer) (v : Vector2) (c : Color) :
  length (idata (imageData (pixel r v c))) = length (idata (imageData r)).
Proof.
  rewrite pixel_unfold. cbn. rewrite !store8_length. reflexivity.
Qed.

Lemma pixel_wf (r : TinyRenderer) (v : Vector2) (c : Color) :
  wf r -> wf (pixel r v c).
Proof.
  unfold wf. rewrite pixel_width, pixel_height, pixel_length. tauto.
Qed.

(** The bytes after a [pixel] call: the four bytes at the offset, when they
    exist, hold the converted channels; every other byte is as before. *)
Lemma byte_pixel (r : TinyRenderer) (v : Vector2) (c : Color) (j : Z) :
  byte (pixel r v c) j =
  let off := (trunc (snd v) * width r + trunc (fst v)) * 4 in
  if decide (off <= j < off + 4 /\
             0 <= j < Z.of_nat (length (idata (imageData r))))
  then Some (toUint8Clamp (channel c (j - off)))
  else byte r j.
Proof.
  rewrite pixel_unfold. unfold byte. cbn zeta.
  set (off := (trunc (snd v) * width r + trunc (fst v)) * 4).
  cbn [imageData idata set_data].
  rewrite !data_at_store8, !store8_length.
  repeat case_decide; try reflexivity; try lia;
    repeat match goal with
    | H : _ /\ _ |- _ => destruct H
    end; subst; try lia.
  all: do 3 f_equal; lia.
Qed.

Lemma index_inj (w h x y x' y' : Z) :
  0 <= x < w -> 0 <= y < h -> 0 <= x' < w -> 0 <= y' < h ->
  y * w + x = y' * w + x' -> x = x' /\ y = y'.
Proof. intros. assert (y = y') by nia. subst. lia. Qed.

Lemma index_range (w h x y : Z) :
  0 <= x < w -> 0 <= y < h -> 0 <= y * w + x < w * h.
Proof. intros. nia. Qed.

Lemma byte_pixel_index (r : TinyRenderer) (v : Vector2) (c : Color)
    (j k : Z) :
  wf r -> 0 <= k < 4 ->
  byte (pixel r v c) (j * 4 + k) =
  if decide (trunc (snd v) * width r + trunc (fst v) = j /\
             0 <= j < width r * height r)
  then Some (toUint8Clamp (channel c k)) else byte r (j * 4 + k).
Proof.
  intros (Hw & Hh & Hlen) Hk. unfold BYTES_PER_PIXEL in Hlen.
  rewrite byte_pixel. cbn zeta.
  destruct (decide (trunc (snd v) * width r + trunc (fst v) = j /\
                    0 <= j < width r * height r)) as [[<- H] | H].
  - rewrite decide_True by lia. do 3 f_equal. lia.
  - rewrite decide_False; [reflexivity |]. intros [H1 H2]. apply H. lia.
Qed.

(** A [pixel] call seen through the row-major index [j] of a pixel. *)
Lemma bytes_at_pixel (r : TinyRenderer) (v : Vector2) (c : Color) (j : Z) :
  wf r ->
  bytes_at (pixel r v c) j =
  if decide (trunc (snd v) * width r + trunc (fst v) = j /\
             0 <= j < width r * height r)
  then stored c else bytes_at r j.
Proof.
  intros Hwf. unfold bytes_at, BYTES_PER_PIXEL.
  cbn [fmap list_fmap]. rewrite !byte_pixel_index by (assumption || lia).
  destruct c as [[[cr cg] cb] ca].
  case_decide; reflexivity.
Qed.

Lemma pixel_bytes_pixel (r : TinyRenderer) (v : Vector2) (c : Color)
    (x y : Z) :
  wf r -> in_buffer r x y ->
  pixel_bytes (pixel r v c) x y =
  if decide (pixel_of v = (x, y) \/
             (trunc (snd v) * width r + trunc (fst v) = y * width r + x))
  then stored c else pixel_bytes r x y.
Proof.
  intros Hwf [Hx Hy]. unfold pixel_bytes. rewrite pixel_width.
  rewrite bytes_at_pixel by assumption.
  pose proof (index_range _ _ _ _ Hx Hy) as Hr.
  unfold pixel_of.
  destruct (decide (trunc (snd v) * width r + trunc (fst v) = y * width r + x
                    /\ 0 <= y * width r + x < width r * height r))
    as [[He _] | Hn].
  - rewrite decide_True; [reflexivity | by right].
  - rewrite decide_False; [reflexivity |].
    intros [Hp | Hi]; apply Hn; (split; [| exact Hr]).
    + injection Hp as -> ->. reflexivity.
    + exact Hi.
Qed.

(** Plotting a list of points with one color: every pixel that a point
    addresses holds the color, every other pixel is as before. *)
Lemma pixel_bytes_foldl_pixel (c : Color) (pts : list Vector2) :
  forall (r : TinyRenderer) (x y : Z),
  wf r ->
  Forall (fun p => in_buffer r (fst (pixel_of p)) (snd (pixel_of p))) pts ->
  in_buffer r x y ->
  pixel_bytes (foldl (fun r p => pixel r p c) r pts) x y =
  if decide ((x, y) ∈ pixel_of <$> pts) then stored c
  else pixel_bytes r x y.
Proof.
  induction pts as [| p pts IH]; intros r x y Hwf Hall Hin.
  - cbn. case_decide as H; [| reflexivity]. inversion H.
  - apply Forall_cons in Hall as [Hp Hall]. cbn [foldl].
    rewrite IH; [| by apply pixel_wf | exact Hall | exact Hin].
    rewrite fmap_cons.
    destruct (decide ((x, y) ∈ pixel_of <$> pts)) as [Hm | Hm].
    + rewrite decide_True; [reflexivity | by apply list_elem_of_further].
    + rewrite pixel_bytes_pixel by assumption.
      destruct Hp as [Hpx Hpy]. destruct Hin as [Hx Hy].
      case_decide as H1; case_decide as H2; try reflexivity; exfalso.
      * apply H2. destruct H1 as [H1 | H1].
        -- rewrite H1. apply list_elem_of_here.
        -- unfold pixel_of in *. cbn [fst snd] in *.
           destruct (index_inj _ _ _ _ _ _ Hpx Hpy Hx Hy H1) as [-> ->].
           apply list_elem_of_here.
      * apply H1. apply elem_of_cons in H2 as [H2 | H2]; [| contradiction].
        left. symmetry. exact H2.
Qed.

Lemma foldl_pixel_zBuffer (c : Color) (pts : list Vector2) :
  forall r : TinyRenderer,
  zBuffer (foldl (fun r p => pixel r p c) r pts) = zBuffer r /\
  width (foldl (fun r p => pixel r p c) r pts) = width r /\
  height (foldl (fun r p => pixel r p c) r pts) = height r.
Proof.
  induction pts as [| p pts IH]; intros r; [done |].
  cbn [foldl]. destruct (IH (pixel r p c)) as (-> & -> & ->). done.
Qed.

(** ** Facts about [line] *)

Lemma line_loop_plots (fuel : nat) (steep : bool) (x1 dx dy sy : Q)
    (color : Color) :
  forall (x y carry : Q) (r : TinyRenderer),
  line_loop fuel steep x1 dx dy sy color x y carry r =
  foldl (fun r p => pixel r p color) r
        (line_plots_loop fuel steep x1 dx dy sy x y carry).
Proof.
  induction fuel as [| fuel IH]; intros x y carry r; [reflexivity |].
  cbn [line_loop line_plots_loop].
  destruct (Qle_bool x x1); [| reflexivity].
  destruct (Qltb dx (carry + sy)); cbn [foldl]; rewrite IH;
    destruct steep; reflexivity.
Qed.

(** [line] performs exactly the [pixel] calls listed by [line_plots]. *)
Lemma line_as_plots (r : TinyRenderer) (v0 v1 : Vector2) (color : Color) :
  line r v0 v1 color =
  foldl (fun r p => pixel r p color) r (line_plots v0 v1).
Proof.
  unfold line, line_plots.
  destruct (line_setup v0 v1) as [[[[steep x0] y0] x1] y1].
  apply line_loop_plots.
Qed.

Lemma Qfloor_unique (q : Q) (f : Z) :
  (inject_Z f <= q)%Q -> (q < inject_Z (f + 1))%Q -> Qfloor q = f.
Proof.
  intros Hlo Hhi.
  pose proof (Qfloor_le q) as H1. pose proof (Qlt_floor q) as H2.
  assert (Qfloor q < f + 1) by (rewrite Zlt_Qlt; lra).
  assert (f < Qfloor q + 1) by (rewrite Zlt_Qlt; lra).
  lia.
Qed.

Lemma inject_Z_succ (z : Z) : (inject_Z (z + 1) == inject_Z z + 1)%Q.
Proof. rewrite inject_Z_plus. reflexivity. Qed.

Lemma inject_Z_pred (z : Z) : (inject_Z (z - 1) == inject_Z z - 1)%Q.
Proof. unfold Z.sub. rewrite inject_Z_plus. reflexivity. Qed.

Lemma line_fuel_step (x x1 : Q) :
  Qle_bool x x1 = true -> line_fuel x x1 = S (line_fuel (x + 1) x1).
Proof.
  intros H. apply Qle_bool_iff in H. unfold line_fuel.
  pose proof (Qfloor_le (x1 - x)) as H1.
  pose proof (Qlt_floor (x1 - x)) as H2.
  assert (0 <= Qfloor (x1 - x)).
  { assert (Qfloor 0 <= Qfloor (x1 - x)) as H0
      by (apply Qfloor_resp_le; lra).
    exact H0. }
  rewrite (Qfloor_unique (x1 - (x + 1)) (Qfloor (x1 - x) - 1)).
  - lia.
  - pose proof (inject_Z_pred (Qfloor (x1 - x))). lra.
  - replace (Qfloor (x1 - x) - 1 + 1) with (Qfloor (x1 - x)) by lia.
    pose proof (inject_Z_succ (Qfloor (x1 - x))). lra.
Qed.

Lemma line_fuel_done (x x1 : Q) :
  Qle_bool x x1 = false -> line_fuel x x1 = O.
Proof.
  intros H. unfold line_fuel.
  assert (x1 < x)%Q as Hlt.
  { apply Qnot_le_lt. intros Hle. apply Qle_bool_iff in Hle. congruence. }
  pose proof (Qfloor_le (x1 - x)) as H1.
  assert (Qfloor (x1 - x) < 0)
    by (rewrite Zlt_Qlt; change (inject_Z 0) with 0%Q; lra).
  lia.
Qed.

(** The loop of [line] ends by its own guard: beyond [line_fuel] more fuel
    changes nothing. *)
Lemma line_plots_loop_fuel (steep : bool) (x1 dx dy sy : Q) (n : nat) :
  forall x y carry : Q,
  (line_fuel x x1 <= n)%nat ->
  line_plots_loop n steep x1 dx dy sy x y carry =
  line_plots_loop (line_fuel x x1) steep x1 dx dy sy x y carry.
Proof.
  induction n as [| n IH]; intros x y carry Hn.
  - replace (line_fuel x x1) with O by lia. reflexivity.
  - destruct (Qle_bool x x1) eqn:Hg.
    + rewrite (line_fuel_step _ _ Hg) in *. cbn [line_plots_loop].
      rewrite Hg.
      destruct (Qltb dx (carry + sy)); f_equal; apply IH; lia.
    + rewrite (line_fuel_done _ _ Hg). cbn [line_plots_loop].
      rewrite Hg. reflexivity.
Qed.

Lemma line_loop_fuel (steep : bool) (x1 dx dy sy : Q) (color : Color)
    (n : nat) (x y carry : Q) (r : TinyRenderer) :
  (line_fuel x x1 <= n)%nat ->
  line_loop n steep x1 dx dy sy color x y carry r =
  line_loop (line_fuel x x1) steep x1 dx dy sy color x y carry r.
Proof.
  intros Hn. rewrite !line_loop_plots.
  rewrite (line_plots_loop_fuel _ _ _ _ _ n) by exact Hn. reflexivity.
Qed.

(** ** Truncation of coordinates in [pixel] *)

(** C10: [pixel] truncates both coordinates toward zero before computing
    the row-major offset: drawing at [(x, y)] is drawing at
    [(trunc x, trunc y)]; that pixel receives the color and no other pixel
    (in particular not the nearest-rounded one) changes. *)
Theorem pixel_truncates_coordinates (r : TinyRenderer) (x y : Q) (c : Color) :
  wf r -> in_buffer r (trunc x) (trunc y) ->
  pixel r (x, y) c = pixel r (inject_Z (trunc x), inject_Z (trunc y)) c /\
  pixel_bytes (pixel r (x, y) c) (trunc x) (trunc y) = stored c /\
  (forall x' y', in_buffer r x' y' -> (x', y') <> (trunc x, trunc y) ->
     pixel_bytes (pixel r (x, y) c) x' y' = pixel_bytes r x' y').
Proof.
  intros Hwf Hin. split; [| split].
  - unfold pixel. cbn [fst snd]. rewrite !trunc_inject_Z. reflexivity.
  - rewrite pixel_bytes_pixel by assumption.
    rewrite decide_True; [reflexivity | by left].
  - intros x' y' Hin' Hne. rewrite pixel_bytes_pixel by assumption.
    rewrite decide_False; [reflexivity |].
    unfold pixel_of. cbn [fst snd]. intros [Hp | Hi].
    + apply Hne. symmetry. exact Hp.
    + destruct Hin as [Hx Hy], Hin' as [Hx' Hy'].
      destruct (index_inj _ _ _ _ _ _ Hx Hy Hx' Hy' Hi) as [E1 E2].
      apply Hne. congruence.
Qed.

Lemma wf_renderer_4_4 : wf (renderer_of (constructor 4 4)).
Proof. unfold wf. vm_compute. repeat split; discriminate. Qed.

Lemma pixel_truncates_coordinates_witness :
  let r := renderer_of (constructor 4 4) in
  let c : Color := (10, 20, 30, 255)%Q in
  trunc (17 # 10) = 1 /\ trunc (5 # 2) = 2 /\
  pixel r (17 # 10, 5 # 2)%Q c = pixel r (1, 2)%Q c /\
  pixel_bytes (pixel r (17 # 10, 5 # 2)%Q c) 1 2 = stored c /\
  pixel_bytes (pixel r (17 # 10, 5 # 2)%Q c) 2 2 = pixel_bytes r 2 2 /\
  pixel_bytes (pixel r (17 # 10, 5 # 2)%Q c) 2 3 = pixel_bytes r 2 3.
Proof.
  intros r c.
  assert (in_buffer r (trunc (17 # 10)) (trunc (5 # 2))) as Hin
    by (vm_compute; repeat split; discriminate).
  destruct (pixel_truncates_coordinates r (17 # 10) (5 # 2) c
              wf_renderer_4_4 Hin) as (H1 & H2 & H3).
  split; [reflexivity |]. split; [reflexivity |].
  split; [exact H1 |]. split; [exact H2 |].
  split; (apply H3; [vm_compute; repeat split; discriminate | discriminate]).
Defined.

(** ** The two reference lines *)

(** C6: [line] from (0,0) to (5,0) calls [pixel] at exactly the six points
    (0,0) .. (5,0); on a buffer that contains them, these six pixels hold
    the color and every other pixel, and the depth buffer, is unchanged. *)
Theorem line_horizontal_0_5 (r : TinyRenderer) (color : Color) :
  wf r -> 6 <= width r -> 1 <= height r ->
  line_plots (0, 0)%Q (5, 0)%Q =
    [(0, 0); (1, 0); (2, 0); (3, 0); (4, 0); (5, 0)]%Q /\
  line r (0, 0)%Q (5, 0)%Q color =
    foldl (fun r p => pixel r p color) r (line_plots (0, 0)%Q (5, 0)%Q) /\
  (forall x y, in_buffer r x y ->
     pixel_bytes (line r (0, 0)%Q (5, 0)%Q color) x y =
     if decide ((x, y) ∈ [(0, 0); (1, 0); (2, 0); (3, 0); (4, 0); (5, 0)])
     then stored color else pixel_bytes r x y) /\
  zBuffer (line r (0, 0)%Q (5, 0)%Q color) = zBuffer r.
Proof.
  intros Hwf Hw Hh.
  assert (line_plots (0, 0)%Q (5, 0)%Q =
          [(0, 0); (1, 0); (2, 0); (3, 0); (4, 0); (5, 0)]%Q) as Hplots
    by (vm_compute; reflexivity).
  split; [exact Hplots |]. split; [apply line_as_plots |]. split.
  - intros x y Hin. rewrite line_as_plots, Hplots.
    rewrite pixel_bytes_foldl_pixel; [reflexivity | assumption | | assumption].
    repeat apply Forall_cons_2; try apply Forall_nil_2;
      unfold in_buffer, pixel_of, trunc; cbn; rewrite !Z.quot_1_r; lia.
  - rewrite line_as_plots. apply foldl_pixel_zBuffer.
Qed.

Lemma wf_renderer_6_1 : wf (renderer_of (constructor 6 1)).
Proof. unfold wf. vm_compute. repeat split; discriminate. Qed.

Lemma line_horizontal_0_5_witness :
  let r := renderer_of (constructor 6 1) in
  let c : Color := (200, 100, 50, 255)%Q in
  length (line_plots (0, 0)%Q (5, 0)%Q) = 6%nat /\
  pixel_bytes (line r (0, 0)%Q (5, 0)%Q c) 5 0 = stored c.
Proof.
  intros r c.
  assert (6 <= width r) as Hw by (vm_compute; discriminate).
  assert (1 <= height r) as Hh by (vm_compute; discriminate).
  destruct (line_horizontal_0_5 r c wf_renderer_6_1 Hw Hh)
    as (H1 & _ & H3 & _).
  split.
  - rewrite H1. reflexivity.
  - rewrite H3 by (vm_compute; repeat split; discriminate).
    apply decide_True.
    repeat (apply elem_of_cons; first [left; reflexivity | right]).
Defined.

(** C7: [line] from (0,0) to (3,10) takes the steep branch and calls
    [pixel] at exactly 11 points, one for each integer y from 0 to 10; on a
    buffer that contains them, these pixels hold the color and every other
    pixel, and the depth buffer, is unchanged. *)
Theorem line_steep_3_10 (r : TinyRenderer) (color : Color) :
  wf r -> 4 <= width r -> 11 <= height r ->
  fst (fst (fst (fst (line_setup (0, 0)%Q (3, 10)%Q)))) = true /\
  line_plots (0, 0)%Q (3, 10)%Q =
    [(0, 0); (0, 1); (1, 2); (1, 3); (1, 4); (1, 5);
     (2, 6); (2, 7); (2, 8); (3, 9); (3, 10)]%Q /\
  length (line_plots (0, 0)%Q (3, 10)%Q) = 11%nat /\
  snd <$> line_plots (0, 0)%Q (3, 10)%Q = inject_Z <$> seqZ 0 11 /\
  line r (0, 0)%Q (3, 10)%Q color =
    foldl (fun r p => pixel r p color) r (line_plots (0, 0)%Q (3, 10)%Q) /\
  (forall x y, in_buffer r x y ->
     pixel_bytes (line r (0, 0)%Q (3, 10)%Q color) x y =
     if decide ((x, y) ∈ [(0, 0); (0, 1); (1, 2); (1, 3); (1, 4); (1, 5);
                          (2, 6); (2, 7); (2, 8); (3, 9); (3, 10)])
     then stored color else pixel_bytes r x y) /\
  zBuffer (line r (0, 0)%Q (3, 10)%Q color) = zBuffer r.
Proof.
  intros Hwf Hw Hh.
  assert (line_plots (0, 0)%Q (3, 10)%Q =
          [(0, 0); (0, 1); (1, 2); (1, 3); (1, 4); (1, 5);
           (2, 6); (2, 7); (2, 8); (3, 9); (3, 10)]%Q) as Hplots
    by (vm_compute; reflexivity).
  split; [vm_compute; reflexivity |]. split; [exact Hplots |].
  split; [rewrite Hplots; reflexivity |].
  split; [rewrite Hplots; vm_compute; reflexivity |].
  split; [apply line_as_plots |]. split.
  - intros x y Hin. rewrite line_as_plots, Hplots.
    rewrite pixel_bytes_foldl_pixel; [reflexivity | assumption | | assumption].
    repeat apply Forall_cons_2; try apply Forall_nil_2;
      unfold in_buffer, pixel_of, trunc; cbn; rewrite !Z.quot_1_r; lia.
  - rewrite line_as_plots. apply foldl_pixel_zBuffer.
Qed.

Lemma wf_renderer_4_11 : wf (renderer_of (constructor 4 11)).
Proof. unfold wf. vm_compute. repeat split; discriminate. Qed.

Lemma line_steep_3_10_witness :
  let r := renderer_of (constructor 4 11) in
  let c : Color := (200, 100, 50, 255)%Q in
  length (line_plots (0, 0)%Q (3, 10)%Q) = 11%nat /\
  pixel_bytes (line r (0, 0)%Q (3, 10)%Q c) 2 7 = stored c /\
  pixel_bytes (line r (0, 0)%Q (3, 10)%Q c) 3 7 = pixel_bytes r 3 7.
Proof.
  intros r c.
  assert (4 <= width r) as Hw by (vm_compute; discriminate).
  assert (11 <= height r) as Hh by (vm_compute; discriminate).
  destruct (line_steep_3_10 r c wf_renderer_4_11 Hw Hh)
    as (_ & _ & H3 & _ & _ & H6 & _).
  split; [exact H3 |]. split.
  - rewrite H6 by (vm_compute; repeat split; discriminate).
    apply decide_True.
    repeat (apply elem_of_cons; first [left; reflexivity | right]).
  - rewrite H6 by (vm_compute; repeat split; discriminate).
    apply decide_False. intros H.
    repeat (apply elem_of_cons in H as [H | H]; [discriminate |]).
    inversion H.
Defined.

(** ** Construction *)

Lemma toUint8Clamp_0 : toUint8Clamp 0 = 0.
Proof. reflexivity. Qed.

Lemma toUint8Clamp_255 : toUint8Clamp 255 = 255.
Proof. reflexivity. Qed.

Lemma fill_black_length (fuel : nat) :
  forall (i : Z) (d : list Z), length (fill_black fuel i d) = length d.
Proof.
  induction fuel as [| fuel IH]; intros i d; [reflexivity |].
  cbn [fill_black]. destruct (i <? Z.of_nat (length d)); [| reflexivity].
  rewrite IH, !store8_length. reflexivity.
Qed.

(** The fill loop writes [0, 0, 0, 255] over every group of four bytes from
    its start index on. *)
Lemma fill_black_data_at (fuel : nat) :
  forall (i : Z) (d : list Z) (j : Z),
  0 <= i -> i mod 4 = 0 -> Z.of_nat (length d) mod 4 = 0 ->
  Z.of_nat (length d) - i <= 4 * Z.of_nat fuel ->
  data_at (fill_black fuel i d) j =
  if decide (i <= j < Z.of_nat (length d))
  then Some (if decide (j mod 4 = 3) then 255 else 0)
  else data_at d j.
Proof.
  induction fuel as [| fuel IH]; intros i d j Hi Hi4 Hl4 Hfuel.
  - cbn [fill_black]. rewrite decide_False by lia. reflexivity.
  - cbn [fill_black]. destruct (Z.ltb_spec i (Z.of_nat (length d))) as [Hlt | Hge].
    + assert ((i + 4) mod 4 = 0) by (Z.div_mod_to_equations; lia).
      rewrite IH; rewrite ?store8_length; try assumption; try lia.
      rewrite !data_at_store8, !store8_length.
      rewrite toUint8Clamp_0, toUint8Clamp_255.
      assert (i + 3 < Z.of_nat (length d)) by (Z.div_mod_to_equations; lia).
      repeat case_decide; try reflexivity; try lia;
        try (exfalso; Z.div_mod_to_equations; lia).
    + rewrite decide_False by lia. reflexivity.
Qed.

Lemma new_Array_fill_lookup (n : Z) (d : Depth) (i : Z) :
  (list_to_map ((fun i => (i, d)) <$> seqZ 0 n) : gmap Z Depth) !! i =
  if decide (0 <= i < n) then Some d else None.
Proof.
  case_decide as H.
  - apply elem_of_list_to_map.
    + rewrite <- list_fmap_compose. cbn. rewrite list_fmap_id.
      apply NoDup_seqZ.
    + apply list_elem_of_fmap. exists i. split; [reflexivity |].
      apply elem_of_seqZ. lia.
  - apply not_elem_of_list_to_map.
    rewrite <- list_fmap_compose. cbn. rewrite list_fmap_id.
    rewrite elem_of_seqZ. lia.
Qed.

Lemma to_int32_small (n : Z) : Z.abs n < INT32_LIMIT -> to_int32 n = n.
Proof.
  unfold to_int32, INT32_LIMIT. intros H.
  rewrite Z.mod_small by lia. lia.
Qed.

Lemma createImageData_small (H : Host) (w h : Z) :
  Z.abs w < INT32_LIMIT -> Z.abs h < INT32_LIMIT ->
  createImageData w h =
  if (w =? 0) || (h =? 0) then Throw IndexSizeError
  else
    match image_refused w h with
    | Some e => Throw e
    | None =>
        Ok {| iwidth := Z.abs w;
              iheight := Z.abs h;
              idata := replicate (Z.to_nat (Z.abs w * Z.abs h * 4)) 0 |}
    end.
Proof.
  intros Hw Hh. unfold createImageData. cbn zeta.
  by rewrite (to_int32_small w Hw), (to_int32_small h Hh).
Qed.

Lemma constructor_positive (H : Host) (w h : Z) :
  Z.abs w < INT32_LIMIT -> Z.abs h < INT32_LIMIT ->
  0 < w * h -> w * h <= MAX_ARRAY_LENGTH ->
  image_refused w h = None -> array_refused (w * h) = None ->
  exists r, constructor w h = Ok r /\
    width r = Z.abs w /\ height r = Z.abs h /\
    wf r /\ zflat r /\
    (forall j k, 0 <= j < w * h -> 0 <= k < 4 ->
       byte r (j * 4 + k) = Some (if decide (k = 3) then 255 else 0)) /\
    (forall i, 0 <= i < w * h -> aget (zBuffer r) i = Some NegInf).
Proof.
  intros Hwl Hhl Hpos Hmax Himg Harr.
  unfold constructor. rewrite (createImageData_small H w h Hwl Hhl).
  unfold new_Array_fill.
  destruct (Z.eqb_spec w 0) as [-> | Hw0]; [lia |].
  destruct (Z.eqb_spec h 0) as [-> | Hh0]; [lia |].
  cbn [orb]. rewrite Himg.
  destruct (Z.ltb_spec (w * h) 0) as [Hneg | _]; [lia |].
  destruct (Z.ltb_spec MAX_ARRAY_LENGTH (w * h)) as [Hbig | _]; [lia |].
  cbn [orb]. rewrite Harr.
  cbn [iwidth iheight idata].
  assert (Z.abs w * Z.abs h = w * h) as E by nia.
  rewrite E.
  eexists. split; [reflexivity |].
  assert (Z.of_nat (length (replicate (Z.to_nat (w * h * 4)) 0)) = w * h * 4)
    as Hlen by (rewrite length_replicate; lia).
  split; [reflexivity |]. split; [reflexivity |]. split; [| split; [| split]].
  - unfold wf, width, height, BYTES_PER_PIXEL. cbn.
    rewrite fill_black_length. lia.
  - unfold zflat, aget, width, height. cbn. split; [exact (eq_sym E) |].
    intros i. rewrite new_Array_fill_lookup, E.
    case_decide; split; intros Hs; try lia; try by eexists.
  - intros j k Hj Hk. unfold byte. cbn [imageData idata].
    rewrite fill_black_data_at;
      rewrite ?Hlen; try first [lia | Z.div_mod_to_equations; lia].
    rewrite decide_True by lia.
    f_equal. repeat case_decide; try reflexivity; exfalso;
      Z.div_mod_to_equations; lia.
  - intros i Hi. unfold aget. cbn. rewrite new_Array_fill_lookup.
    by rewrite decide_True.
Qed.

(** Construction returns a renderer only for dimensions that are not zero
    as 32-bit integers and whose product is positive and a legal array
    length, on a host with room for both buffers. *)
Lemma constructor_Ok_inv (H : Host) (w h : Z) (r : TinyRenderer) :
  constructor w h = Ok r ->
  to_int32 w <> 0 /\ to_int32 h <> 0 /\
  0 < w * h <= MAX_ARRAY_LENGTH /\
  image_refused (to_int32 w) (to_int32 h) = None /\
  array_refused (w * h) = None.
Proof.
  unfold constructor, createImageData, new_Array_fill. cbn zeta.
  destruct (Z.eqb_spec (to_int32 w) 0) as [| Hw]; [discriminate |].
  destruct (Z.eqb_spec (to_int32 h) 0) as [| Hh]; [discriminate |].
  cbn [orb].
  destruct (image_refused (to_int32 w) (to_int32 h)); [discriminate |].
  destruct (Z.ltb_spec (w * h) 0); [discriminate |].
  destruct (Z.ltb_spec MAX_ARRAY_LENGTH (w * h)); [discriminate |].
  cbn [orb]. destruct (array_refused (w * h)); [discriminate |].
  intros _.
  assert (w <> 0) by (intros ->; by apply Hw).
  assert (h <> 0) by (intros ->; by apply Hh).
  repeat split; try assumption; try reflexivity. nia.
Qed.

(** C9, as the code has it: a zero dimension, dimensions of opposite sign,
    or dimensions whose product exceeds the greatest array length make
    construction raise an error, and so does a host without room for the
    buffers; no renderer is produced then.  Positive dimensions within
    these limits give a renderer of that size whose pixels are all opaque
    black and whose depth entries are all [-Infinity]. *)
Theorem constructor_outcomes (H : Host) (w h : Z) :
  (w = 0 \/ h = 0 -> constructor w h = Throw IndexSizeError) /\
  (w < 0 < h \/ h < 0 < w -> exists e, constructor w h = Throw e) /\
  (MAX_ARRAY_LENGTH < w * h -> exists e, constructor w h = Throw e) /\
  (0 < w < INT32_LIMIT -> 0 < h < INT32_LIMIT ->
   forall e, image_refused w h = Some e -> constructor w h = Throw e) /\
  (0 < w < INT32_LIMIT -> 0 < h < INT32_LIMIT ->
   w * h <= MAX_ARRAY_LENGTH -> image_refused w h = None ->
   forall e, array_refused (w * h) = Some e -> constructor w h = Throw e) /\
  (0 < w < INT32_LIMIT -> 0 < h < INT32_LIMIT ->
   w * h <= MAX_ARRAY_LENGTH ->
   image_refused w h = None -> array_refused (w * h) = None ->
   exists r, constructor w h = Ok r /\ width r = w /\ height r = h /\
     Z.of_nat (length (idata (imageData r))) = w * h * 4 /\
     alength (zBuffer r) = w * h /\
     forall x y, in_buffer r x y ->
       pixel_bytes r x y = [Some 0; Some 0; Some 0; Some 255] /\
       depth_at r x y = Some NegInf).
Proof.
  split; [| split; [| split; [| split; [| split]]]].
  - intros H0. unfold constructor, createImageData. cbn zeta.
    destruct H0 as [-> | ->].
    + reflexivity.
    + change (to_int32 0) with 0. rewrite orb_true_r. reflexivity.
  - intros Hs. unfold constructor, createImageData, new_Array_fill.
    cbn zeta.
    destruct ((to_int32 w =? 0) || (to_int32 h =? 0));
      [by exists IndexSizeError |].
    destruct (image_refused _ _) as [e |]; [by exists e |].
    destruct (Z.ltb_spec (w * h) 0); [by exists RangeError | nia].
  - intros Hbig. unfold constructor, createImageData, new_Array_fill.
    cbn zeta.
    destruct ((to_int32 w =? 0) || (to_int32 h =? 0));
      [by exists IndexSizeError |].
    destruct (image_refused _ _) as [e |]; [by exists e |].
    destruct (Z.ltb_spec MAX_ARRAY_LENGTH (w * h)); [| lia].
    rewrite orb_true_r. by exists RangeError.
  - intros Hw Hh e He. unfold constructor.
    rewrite (createImageData_small H w h) by lia.
    destruct (Z.eqb_spec w 0); [lia |].
    destruct (Z.eqb_spec h 0); [lia |]. cbn [orb]. rewrite He. reflexivity.
  - intros Hw Hh Hmax Himg e He. unfold constructor.
    rewrite (createImageData_small H w h) by lia.
    unfold new_Array_fill.
    destruct (Z.eqb_spec w 0); [lia |].
    destruct (Z.eqb_spec h 0); [lia |]. cbn [orb]. rewrite Himg.
    destruct (Z.ltb_spec (w * h) 0); [nia |].
    destruct (Z.ltb_spec MAX_ARRAY_LENGTH (w * h)); [lia |].
    cbn [orb]. rewrite He. reflexivity.
  - intros Hw Hh Hmax Himg Harr.
    destruct (constructor_positive H w h ltac:(lia) ltac:(lia) ltac:(nia)
                Hmax Himg Harr)
      as (r & Hr & Hwr & Hhr & Hwf & Hz & Hb & Hd).
    rewrite Z.abs_eq in Hwr by lia. rewrite Z.abs_eq in Hhr by lia.
    exists r. split; [exact Hr |]. split; [exact Hwr |]. split; [exact Hhr |].
    destruct Hwf as (_ & _ & Hlen). destruct Hz as [Hzl _].
    rewrite Hwr, Hhr in *. unfold BYTES_PER_PIXEL in Hlen.
    split; [exact Hlen |]. split; [exact Hzl |].
    intros x y [Hx Hy]. rewrite Hwr in Hx. rewrite Hhr in Hy.
    pose proof (index_range _ _ _ _ Hx Hy) as Hi. split.
    + unfold pixel_bytes, bytes_at, BYTES_PER_PIXEL. rewrite Hwr.
      cbn [fmap list_fmap]. rewrite !Hb by lia. reflexivity.
    + unfold depth_at. rewrite Hwr. apply Hd. exact Hi.
Qed.

Lemma constructor_outcomes_witness :
  constructor 0 5 = Throw IndexSizeError /\
  (exists e, constructor (-2) 3 = Throw e) /\
  (exists e, constructor 65536 65536 = Throw e) /\
  @constructor (capped_host 1000 1000) 20 20 = Throw RangeError /\
  @constructor (capped_host 2000 100) 300 1 = Throw RangeError /\
  exists r, constructor 3 2 = Ok r /\ width r = 3 /\ height r = 2 /\
    Z.of_nat (length (idata (imageData r))) = 3 * 2 * 4 /\
    alength (zBuffer r) = 3 * 2 /\
    forall x y, in_buffer r x y ->
      pixel_bytes r x y = [Some 0; Some 0; Some 0; Some 255] /\
      depth_at r x y = Some NegInf.
Proof.
  split; [| split; [| split; [| split; [| split]]]].
  - destruct (constructor_outcomes roomy_host 0 5) as (H0 & _).
    apply H0. left. reflexivity.
  - destruct (constructor_outcomes roomy_host (-2) 3) as (_ & Hs & _).
    apply Hs. left. lia.
  - destruct (constructor_outcomes roomy_host 65536 65536)
      as (_ & _ & Hbig & _).
    apply Hbig. reflexivity.
  - destruct (constructor_outcomes (capped_host 1000 1000) 20 20)
      as (_ & _ & _ & Himg & _).
    apply Himg; [unfold INT32_LIMIT; lia | unfold INT32_LIMIT; lia
                | reflexivity].
  - destruct (constructor_outcomes (capped_host 2000 100) 300 1)
      as (_ & _ & _ & _ & Harr & _).
    apply Harr; [unfold INT32_LIMIT; lia | unfold INT32_LIMIT; lia
                | discriminate | reflexivity | reflexivity].
  - destruct (constructor_outcomes roomy_host 3 2)
      as (_ & _ & _ & _ & _ & Hok).
    apply Hok; [unfold INT32_LIMIT; lia | unfold INT32_LIMIT; lia
               | discriminate | reflexivity | reflexivity].
Defined.

(** C9, counterexample: with both dimensions negative the constructor
    raises nothing and returns a renderer of 2 by 3 pixels; and positive
    dimensions do not always succeed: 65536 by 65536 asks for an array
    longer than [2^32 - 1] and raises an error on every host, and a host
    with room for a thousand bytes refuses 20 by 20. *)
Lemma constructor_negative_dimensions :
  ((-2 <= 0 \/ -3 <= 0) /\
   (forall e, constructor (-2) (-3) <> Throw e) /\
   exists r, constructor (-2) (-3) = Ok r /\ width r = 2 /\ height r = 3 /\
     length (idata (imageData r)) = 24%nat /\ alength (zBuffer r) = 6) /\
  (0 < 65536 /\
   forall (H : Host) (r : TinyRenderer),
     @constructor H 65536 65536 <> Ok r) /\
  (0 < 20 /\
   forall r : TinyRenderer,
     @constructor (capped_host 1000 1000) 20 20 <> Ok r).
Proof.
  split; [| split].
  - split; [left; lia |]. split.
    + intros e. vm_compute. discriminate.
    + eexists. split; [vm_compute; reflexivity |]. repeat split.
  - split; [lia |]. intros H r Hr.
    apply constructor_Ok_inv in Hr as (_ & _ & [_ Hmax] & _).
    revert Hmax. vm_compute. intros Hmax. apply Hmax. reflexivity.
  - split; [lia |]. intros r Hr.
    apply constructor_Ok_inv in Hr as (_ & _ & _ & Himg & _).
    discriminate Himg.
Qed.

(** ** Facts about the depth array *)

Lemma aget_aset (a : JSArray) (i j : Z) (d : Depth) :
  aget (aset a i d) j = if decide (i = j) then Some d else aget a j.
Proof.
  unfold aget, aset. cbn. case_decide as H.
  - subst. apply lookup_insert_eq.
  - by apply lookup_insert_ne.
Qed.

Lemma alength_aset_inside (a : JSArray) (i : Z) (d : Depth) :
  i < alength a -> alength (aset a i d) = alength a.
Proof. intros H. unfold aset. cbn. destruct (0 <=? i); lia. Qed.

(** ** Facts about [triangle], for any implementation of the helpers *)

Section TriangleFacts.

Variable barycentric : Vector3 -> Vector3 -> Vector3 -> Vector2 -> Vector3.
Variable getPixel : ImageData -> Vector2 -> Color.
Variable scale : Vector3 -> Q -> Vector3.

Local Abbreviation step := (triangle_pixel barycentric getPixel scale).
Local Abbreviation draw := (triangle barycentric getPixel scale).

Lemma triangle_pixel_width v0 v1 v2 t0 t1 t2 i tex r x y :
  width (step v0 v1 v2 t0 t1 t2 i tex r x y) = width r.
Proof.
  unfold triangle_pixel. destruct (rejected _ _ _); reflexivity.
Qed.

Lemma triangle_pixel_height v0 v1 v2 t0 t1 t2 i tex r x y :
  height (step v0 v1 v2 t0 t1 t2 i tex r x y) = height r.
Proof.
  unfold triangle_pixel. destruct (rejected _ _ _); reflexivity.
Qed.

Lemma triangle_pixel_wf v0 v1 v2 t0 t1 t2 i tex r x y :
  wf r -> wf (step v0 v1 v2 t0 t1 t2 i tex r x y).
Proof.
  intros H. unfold triangle_pixel. destruct (rejected _ _ _); [exact H |].
  apply pixel_wf. exact H.
Qed.

Lemma triangle_pixel_rejected v0 v1 v2 t0 t1 t2 i tex r x y :
  rejected (barycentric v0 v1 v2 (inject_Z x, inject_Z y))
    (interp_z v0 v1 v2 (barycentric v0 v1 v2 (inject_Z x, inject_Z y)))
    (aget (zBuffer r) (y * width r + x)) = true ->
  step v0 v1 v2 t0 t1 t2 i tex r x y = r.
Proof. intros H. unfold triangle_pixel. rewrite H. reflexivity. Qed.

Lemma triangle_pixel_accepted v0 v1 v2 t0 t1 t2 i tex r x y :
  rejected (barycentric v0 v1 v2 (inject_Z x, inject_Z y))
    (interp_z v0 v1 v2 (barycentric v0 v1 v2 (inject_Z x, inject_Z y)))
    (aget (zBuffer r) (y * width r + x)) = false ->
  step v0 v1 v2 t0 t1 t2 i tex r x y =
  pixel (set_zBuffer r
           (aset (zBuffer r) (y * width r + x)
              (Fin (interp_z v0 v1 v2
                      (barycentric v0 v1 v2 (inject_Z x, inject_Z y))))))
        (inject_Z x, inject_Z y)
        (shade getPixel scale t0 t1 t2
           (barycentric v0 v1 v2 (inject_Z x, inject_Z y)) i tex).
Proof. intros H. unfold triangle_pixel. rewrite H. reflexivity. Qed.

Lemma rejected_negative (bc : Vector3) (z : Q) (cur : option Depth) :
  has_negative bc -> rejected bc z cur = true.
Proof.
  destruct bc as [[b0 b1] b2]. unfold has_negative, rejected.
  intros [H | [H | H]]; apply Qltb_true in H; rewrite H;
    rewrite ?orb_true_r; reflexivity.
Qed.

Lemma rejected_depth (bc : Vector3) (z d : Q) :
  (z <= d)%Q -> rejected bc z (Some (Fin d)) = true.
Proof.
  intros H. destruct bc as [[b0 b1] b2]. unfold rejected, depth_le.
  apply Qle_bool_iff in H. rewrite H. rewrite !orb_true_r. reflexivity.
Qed.

(** The nested loops of [triangle] are one scan over the grid of the
    bounding box. *)
Lemma foldl_grid {A : Type} (f : A -> Z -> Z -> A) (ys : list Z) :
  forall (xs : list Z) (a : A),
  foldl (fun a x => foldl (fun a y => f a x y) a ys) a xs =
  foldl (fun a p => f a (fst p) (snd p)) a (grid xs ys).
Proof.
  induction xs as [| x xs IH]; intros a; [reflexivity |].
  unfold grid. cbn [foldl mbind list_bind]. fold (grid xs ys).
  rewrite foldl_app, <- IH. f_equal.
  generalize a. clear. induction ys as [| y ys IH]; intros a; [reflexivity |].
  cbn. apply IH.
Qed.

Lemma triangle_as_grid r v0 v1 v2 t0 t1 t2 i tex :
  draw r v0 v1 v2 t0 t1 t2 i tex =
  let '(xmin, xmax, ymin, ymax) := bbox v0 v1 v2 in
  foldl (fun r p => step v0 v1 v2 t0 t1 t2 i tex r (fst p) (snd p)) r
        (grid (range xmin xmax) (range ymin ymax)).
Proof.
  unfold triangle. destruct (bbox v0 v1 v2) as [[[xmin xmax] ymin] ymax].
  apply (foldl_grid (fun r x y => step v0 v1 v2 t0 t1 t2 i tex r x y)).
Qed.

Lemma elem_of_grid (xs ys : list Z) (x y : Z) :
  (x, y) ∈ grid xs ys <-> x ∈ xs /\ y ∈ ys.
Proof.
  unfold grid. rewrite list_elem_of_bind. split.
  - intros (x' & Hp & Hx). apply list_elem_of_fmap in Hp as (y' & E & Hy).
    injection E as -> ->. done.
  - intros [Hx Hy]. exists x. split; [| exact Hx].
    apply list_elem_of_fmap. by exists y.
Qed.

Lemma elem_of_range (lo hi x : Z) : x ∈ range lo hi <-> lo <= x <= hi.
Proof. unfold range. rewrite elem_of_seqZ. lia. Qed.

(** A scan whose every step leaves the state alone leaves it alone. *)
Lemma foldl_fixed {A B : Type} (f : A -> B -> A) (a : A) (l : list B) :
  (forall b, b ∈ l -> f a b = a) -> foldl f a l = a.
Proof.
  induction l as [| b l IH]; intros H; [reflexivity |].
  cbn [foldl]. rewrite (H b) by apply list_elem_of_here.
  apply IH. intros b' Hb'. apply H. by apply list_elem_of_further.
Qed.

(** C5: for a triangle with collinear vertices, if the barycentric
    evaluator returns a weight vector with a negative component at every
    query point, the draw call leaves the renderer as it was: no pixel
    written, every depth entry unchanged. *)
Theorem degenerate_triangle_draws_nothing r v0 v1 v2 t0 t1 t2 i tex :
  area2 v0 v1 v2 == 0 ->
  (forall p, has_negative (barycentric v0 v1 v2 p)) ->
  draw r v0 v1 v2 t0 t1 t2 i tex = r.
Proof.
  intros _ Hneg. rewrite triangle_as_grid.
  destruct (bbox v0 v1 v2) as [[[xmin xmax] ymin] ymax].
  apply foldl_fixed. intros [x y] _. cbn [fst snd].
  apply triangle_pixel_rejected, rejected_negative, Hneg.
Qed.


(** *** The depth test *)

Lemma settled_after_step v0 v1 v2 t0 t1 t2 i tex r x y :
  settled barycentric v0 v1 v2 (step v0 v1 v2 t0 t1 t2 i tex r x y) (x, y).
Proof.
  unfold settled. cbn [fst snd]. rewrite triangle_pixel_width.
  destruct (rejected (barycentric v0 v1 v2 (inject_Z x, inject_Z y))
              (interp_z v0 v1 v2
                 (barycentric v0 v1 v2 (inject_Z x, inject_Z y)))
              (aget (zBuffer r) (y * width r + x))) eqn:E.
  - rewrite triangle_pixel_rejected by exact E. exact E.
  - rewrite triangle_pixel_accepted by exact E.
    rewrite pixel_zBuffer. cbn [zBuffer set_zBuffer].
    rewrite aget_aset, decide_True by reflexivity.
    apply rejected_depth. apply Qle_refl.
Qed.

Lemma settled_preserved v0 v1 v2 t0 t1 t2 i tex r x y p :
  settled barycentric v0 v1 v2 r p ->
  settled barycentric v0 v1 v2 (step v0 v1 v2 t0 t1 t2 i tex r x y) p.
Proof.
  unfold settled. rewrite triangle_pixel_width. intros Hp.
  destruct (rejected (barycentric v0 v1 v2 (inject_Z x, inject_Z y))
              (interp_z v0 v1 v2
                 (barycentric v0 v1 v2 (inject_Z x, inject_Z y)))
              (aget (zBuffer r) (y * width r + x))) eqn:E.
  - rewrite triangle_pixel_rejected by exact E. exact Hp.
  - rewrite triangle_pixel_accepted by exact E.
    rewrite pixel_zBuffer. cbn [zBuffer set_zBuffer].
    rewrite aget_aset. case_decide as Hi; [| exact Hp].
    rewrite <- Hi in Hp. revert Hp E.
    generalize (interp_z v0 v1 v2
                  (barycentric v0 v1 v2 (inject_Z x, inject_Z y))).
    generalize (interp_z v0 v1 v2
                  (barycentric v0 v1 v2 (inject_Z (fst p), inject_Z (snd p)))).
    destruct (barycentric v0 v1 v2 (inject_Z x, inject_Z y)) as [[a0 a1] a2].
    destruct (barycentric v0 v1 v2 (inject_Z (fst p), inject_Z (snd p)))
      as [[b0 b1] b2].
    unfold rejected. intros z' z Hp E.
    apply orb_false_iff in E as [_ E].
    apply orb_true_iff in Hp as [Hp | Hp]; [rewrite Hp; reflexivity |].
    apply orb_true_iff. right.
    destruct (aget (zBuffer r) (y * width r + x)) as [[| d] |];
      cbn [depth_le] in *; try discriminate.
    apply Qle_bool_iff. apply Qle_bool_iff in Hp.
    assert (~ (z <= d)%Q) as Hn
      by (intros Hle; apply Qle_bool_iff in Hle; congruence).
    lra.
Qed.

(** After a scan, every scanned point would be rejected. *)
Lemma settled_after_scan v0 v1 v2 t0 t1 t2 i tex (l : list (Z * Z)) :
  forall r p,
  p ∈ l \/ settled barycentric v0 v1 v2 r p ->
  settled barycentric v0 v1 v2
    (foldl (fun r q => step v0 v1 v2 t0 t1 t2 i tex r (fst q) (snd q)) r l) p.
Proof.
  induction l as [| q l IH]; intros r p H.
  - destruct H as [H | H]; [inversion H | exact H].
  - cbn [foldl]. apply IH.
    destruct H as [H | H].
    + apply elem_of_cons in H as [-> | H]; [| by left].
      right. destruct q as [x y]. apply settled_after_step.
    + right. apply settled_preserved. exact H.
Qed.

(** C3: a point whose interpolated depth is at most the stored depth is
    skipped, leaving the whole renderer as it was; consequently a second
    draw of the same triangle (with any texture and intensity) changes
    nothing: every pixel keeps the color of the first draw. *)
Theorem depth_ties_keep_first_draw r v0 v1 v2 t0 t1 t2 i tex
    t0' t1' t2' i' tex' :
  (forall x y d,
     depth_at r x y = Some (Fin d) ->
     (interp_z v0 v1 v2 (barycentric v0 v1 v2 (inject_Z x, inject_Z y))
      <= d)%Q ->
     step v0 v1 v2 t0 t1 t2 i tex r x y = r) /\
  draw (draw r v0 v1 v2 t0 t1 t2 i tex) v0 v1 v2 t0' t1' t2' i' tex' =
  draw r v0 v1 v2 t0 t1 t2 i tex.
Proof.
  split.
  - intros x y d Hd Hz. apply triangle_pixel_rejected.
    unfold depth_at in Hd. rewrite Hd. apply rejected_depth. exact Hz.
  - rewrite (triangle_as_grid (draw r v0 v1 v2 t0 t1 t2 i tex)).
    rewrite (triangle_as_grid r).
    destruct (bbox v0 v1 v2) as [[[xmin xmax] ymin] ymax].
    apply foldl_fixed. intros [x y] Hp. cbn [fst snd].
    apply triangle_pixel_rejected.
    apply (settled_after_scan v0 v1 v2 t0 t1 t2 i tex _ r (x, y)).
    left. exact Hp.
Qed.

(** *** The effect of one step of the scan *)

(** An accepted point commits its color at the pixel its row-major index
    addresses, when there is one, and its depth at that index. *)
Lemma triangle_pixel_effect v0 v1 v2 t0 t1 t2 i tex r x y :
  wf r ->
  rejected (barycentric v0 v1 v2 (inject_Z x, inject_Z y))
    (interp_z v0 v1 v2 (barycentric v0 v1 v2 (inject_Z x, inject_Z y)))
    (aget (zBuffer r) (y * width r + x)) = false ->
  (forall j,
     bytes_at (step v0 v1 v2 t0 t1 t2 i tex r x y) j =
     if decide (y * width r + x = j /\ 0 <= j < width r * height r)
     then stored (shade getPixel scale t0 t1 t2
                    (barycentric v0 v1 v2 (inject_Z x, inject_Z y)) i tex)
     else bytes_at r j) /\
  (forall j,
     aget (zBuffer (step v0 v1 v2 t0 t1 t2 i tex r x y)) j =
     if decide (y * width r + x = j)
     then Some (Fin (interp_z v0 v1 v2
                       (barycentric v0 v1 v2 (inject_Z x, inject_Z y))))
     else aget (zBuffer r) j).
Proof.
  intros Hwf E. rewrite triangle_pixel_accepted by exact E. split.
  - intros j. rewrite bytes_at_pixel by exact Hwf.
    cbn [fst snd]. rewrite !trunc_inject_Z. reflexivity.
  - intros j. rewrite pixel_zBuffer. cbn [zBuffer set_zBuffer].
    apply aget_aset.
Qed.

(** A point whose row-major index addresses no pixel changes no byte. *)
Lemma triangle_pixel_data_outside v0 v1 v2 t0 t1 t2 i tex r x y :
  wf r -> ~ 0 <= y * width r + x < width r * height r ->
  idata (imageData (step v0 v1 v2 t0 t1 t2 i tex r x y)) =
  idata (imageData r).
Proof.
  intros Hwf Hout. unfold triangle_pixel.
  destruct (rejected _ _ _); [reflexivity |].
  apply data_at_ext. intros j.
  change (byte (pixel (set_zBuffer r
    (aset (zBuffer r) (y * width r + x)
       (Fin (interp_z v0 v1 v2
               (barycentric v0 v1 v2 (inject_Z x, inject_Z y))))))
    (inject_Z x, inject_Z y)
    (shade getPixel scale t0 t1 t2
       (barycentric v0 v1 v2 (inject_Z x, inject_Z y)) i tex)) j =
    byte r j).
  rewrite byte_pixel. cbn zeta. cbn [fst snd]. rewrite !trunc_inject_Z.
  rewrite decide_False; [reflexivity |].
  destruct Hwf as (_ & _ & Hlen). unfold BYTES_PER_PIXEL in Hlen.
  change (width (set_zBuffer r _)) with (width r).
  change (idata (imageData (set_zBuffer r _))) with (idata (imageData r)).
  lia.
Qed.

(** Every step leaves the cells at other indices alone. *)
Lemma triangle_pixel_aget_other v0 v1 v2 t0 t1 t2 i tex r x y j :
  j <> y * width r + x ->
  aget (zBuffer (step v0 v1 v2 t0 t1 t2 i tex r x y)) j = aget (zBuffer r) j.
Proof.
  intros Hne. unfold triangle_pixel.
  destruct (rejected _ _ _); [reflexivity |].
  rewrite pixel_zBuffer. cbn [zBuffer set_zBuffer].
  rewrite aget_aset. by rewrite decide_False.
Qed.

Lemma triangle_pixel_bytes_other v0 v1 v2 t0 t1 t2 i tex r x y j :
  wf r -> j <> y * width r + x ->
  bytes_at (step v0 v1 v2 t0 t1 t2 i tex r x y) j = bytes_at r j.
Proof.
  intros Hwf Hne. unfold triangle_pixel.
  destruct (rejected _ _ _) eqn:E; [reflexivity |].
  rewrite bytes_at_pixel by exact Hwf.
  cbn [fst snd]. rewrite !trunc_inject_Z.
  rewrite decide_False; [reflexivity |].
  change (width (set_zBuffer r _)) with (width r). lia.
Qed.

(** C2, as the code has it: a computed point [(x, y)] whose row-major
    index [y * width + x] lies outside [0, width * height) changes no byte
    of the pixel buffer and no depth entry of an index inside that range;
    a point whose index lies inside the range and that passes the tests is
    committed at the pixel and depth entry of that index, whether or not
    [(x, y)] itself lies inside the buffer; and the draw call is the scan
    of all points of the bounding box, none of which ends it early. *)
Theorem out_of_range_points_skip_by_index r v0 v1 v2 t0 t1 t2 i tex x y :
  wf r ->
  (~ 0 <= y * width r + x < width r * height r ->
   idata (imageData (step v0 v1 v2 t0 t1 t2 i tex r x y)) =
     idata (imageData r) /\
   forall j, 0 <= j < width r * height r ->
     aget (zBuffer (step v0 v1 v2 t0 t1 t2 i tex r x y)) j =
     aget (zBuffer r) j) /\
  (0 <= y * width r + x < width r * height r ->
   rejected (barycentric v0 v1 v2 (inject_Z x, inject_Z y))
     (interp_z v0 v1 v2 (barycentric v0 v1 v2 (inject_Z x, inject_Z y)))
     (aget (zBuffer r) (y * width r + x)) = false ->
   bytes_at (step v0 v1 v2 t0 t1 t2 i tex r x y) (y * width r + x) =
     stored (shade getPixel scale t0 t1 t2
               (barycentric v0 v1 v2 (inject_Z x, inject_Z y)) i tex) /\
   aget (zBuffer (step v0 v1 v2 t0 t1 t2 i tex r x y)) (y * width r + x) =
     Some (Fin (interp_z v0 v1 v2
                  (barycentric v0 v1 v2 (inject_Z x, inject_Z y))))) /\
  draw r v0 v1 v2 t0 t1 t2 i tex =
    (let '(xmin, xmax, ymin, ymax) := bbox v0 v1 v2 in
     foldl (fun r p => step v0 v1 v2 t0 t1 t2 i tex r (fst p) (snd p)) r
           (grid (range xmin xmax) (range ymin ymax))).
Proof.
  intros Hwf. split; [| split].
  - intros Hout. split.
    + by apply triangle_pixel_data_outside.
    + intros j Hj. apply triangle_pixel_aget_other. lia.
  - intros Hin E.
    destruct (triangle_pixel_effect v0 v1 v2 t0 t1 t2 i tex r x y Hwf E)
      as [Hb Hd].
    rewrite Hb, Hd. rewrite !decide_True by (try split; (reflexivity || lia)).
    done.
  - apply triangle_as_grid.
Qed.

(** *** The shape of the depth buffer *)

Lemma foldl_invariant {A B : Type} (P : A -> Prop) (f : A -> B -> A)
    (l : list B) :
  forall a, (forall a b, b ∈ l -> P a -> P (f a b)) -> P a -> P (foldl f a l).
Proof.
  induction l as [| b l IH]; intros a Hf Ha; [exact Ha |].
  cbn [foldl]. apply IH.
  - intros a' b' Hb'. apply Hf. by apply list_elem_of_further.
  - apply Hf; [apply list_elem_of_here | exact Ha].
Qed.

Lemma triangle_pixel_zflat v0 v1 v2 t0 t1 t2 i tex r x y :
  zflat r -> 0 <= y * width r + x < width r * height r ->
  zflat (step v0 v1 v2 t0 t1 t2 i tex r x y).
Proof.
  intros [Hlen Hdom] Hin. unfold zflat.
  rewrite triangle_pixel_width, triangle_pixel_height.
  unfold triangle_pixel. destruct (rejected _ _ _); [by split |].
  rewrite pixel_zBuffer. cbn [zBuffer set_zBuffer]. split.
  - rewrite alength_aset_inside by lia. exact Hlen.
  - intros j. rewrite aget_aset. case_decide as Hj; [| apply Hdom].
    subst j. split; [intros _; exact Hin | intros _; by eexists].
Qed.

Lemma triangle_in_buffer_zflat r v0 v1 v2 t0 t1 t2 i tex :
  bbox_in_buffer r v0 v1 v2 -> zflat r ->
  zflat (draw r v0 v1 v2 t0 t1 t2 i tex) /\
  width (draw r v0 v1 v2 t0 t1 t2 i tex) = width r /\
  height (draw r v0 v1 v2 t0 t1 t2 i tex) = height r.
Proof.
  unfold bbox_in_buffer. rewrite triangle_as_grid.
  destruct (bbox v0 v1 v2) as [[[xmin xmax] ymin] ymax].
  intros (Hx0 & Hx1 & Hy0 & Hy1) Hz.
  apply (foldl_invariant
           (fun s => zflat s /\ width s = width r /\ height s = height r));
    [| done].
  intros s [x y] Hp (Hs & Hw & Hh). cbn [fst snd].
  apply elem_of_grid in Hp as [Hx Hy].
  apply elem_of_range in Hx. apply elem_of_range in Hy.
  rewrite triangle_pixel_width, triangle_pixel_height.
  split; [| done]. apply triangle_pixel_zflat; [exact Hs |].
  rewrite Hw, Hh. apply index_range; lia.
Qed.

Lemma triangle_width r v0 v1 v2 t0 t1 t2 i tex :
  width (draw r v0 v1 v2 t0 t1 t2 i tex) = width r /\
  height (draw r v0 v1 v2 t0 t1 t2 i tex) = height r.
Proof.
  rewrite triangle_as_grid.
  destruct (bbox v0 v1 v2) as [[[xmin xmax] ymin] ymax].
  apply (foldl_invariant
           (fun s => width s = width r /\ height s = height r)); [| done].
  intros s [x y] _ [Hw Hh].
  by rewrite triangle_pixel_width, triangle_pixel_height.
Qed.

(** C4, as the code has it: over any sequence of [pixel], [line] and
    [triangle] calls in which every triangle's bounding box lies inside
    the buffer, the depth buffer stays a flat array of exactly
    [width * height] entries, and the dimensions never change. *)
Theorem depth_buffer_stays_flat (cs : list Call) :
  forall r,
  zflat r -> Forall (call_in_buffer r) cs ->
  zflat (run_calls barycentric getPixel scale r cs) /\
  width (run_calls barycentric getPixel scale r cs) = width r /\
  height (run_calls barycentric getPixel scale r cs) = height r.
Proof.
  induction cs as [| c cs IH]; intros r Hz Hall; [done |].
  apply Forall_cons in Hall as [Hc Hall].
  change (run_calls barycentric getPixel scale r (c :: cs))
    with (run_calls barycentric getPixel scale
            (run_call barycentric getPixel scale r c) cs).
  assert (zflat (run_call barycentric getPixel scale r c) /\
          width (run_call barycentric getPixel scale r c) = width r /\
          height (run_call barycentric getPixel scale r c) = height r)
    as (Hz' & Hw' & Hh').
  { destruct c as [p color | p0 p1 color | v0 v1 v2 t0 t1 t2 i tex];
      cbn [run_call call_in_buffer] in *.
    - done.
    - rewrite line_as_plots.
      destruct (foldl_pixel_zBuffer color (line_plots p0 p1) r)
        as (Hzb & Hw & Hh).
      unfold zflat. rewrite Hzb, Hw, Hh. done.
    - by apply triangle_in_buffer_zflat. }
  destruct (IH (run_call barycentric getPixel scale r c) Hz') as (H1 & H2 & H3).
  - eapply Forall_impl; [exact Hall |].
    intros c'. destruct c' as [| | v0 v1 v2 ? ? ? ? ?]; cbn; try done.
    unfold bbox_in_buffer. rewrite Hw', Hh'. done.
  - rewrite H2, H3. done.
Qed.

(** *** Geometry: weights, edges and the bounding box *)












(** *** Scans inside the buffer, pixel by pixel *)

Lemma index_ne r (p q : Z * Z) :
  in_buffer r (fst p) (snd p) -> in_buffer r (fst q) (snd q) -> q <> p ->
  snd p * width r + fst p <> snd q * width r + fst q.
Proof.
  intros [Hpx Hpy] [Hqx Hqy] Hne E. apply Hne.
  destruct (index_inj _ _ _ _ _ _ Hpx Hpy Hqx Hqy E) as [E1 E2].
  destruct p, q. cbn in *. congruence.
Qed.


(** A scanned pixel of the buffer that passes the tests in the initial
    state holds, after a scan of in-buffer points, the shaded color and
    the interpolated depth. *)
Lemma scan_commits v0 v1 v2 t0 t1 t2 i tex r (p : Z * Z) :
  wf r -> in_buffer r (fst p) (snd p) ->
  rejected (barycentric v0 v1 v2 (inject_Z (fst p), inject_Z (snd p)))
    (interp_z v0 v1 v2
       (barycentric v0 v1 v2 (inject_Z (fst p), inject_Z (snd p))))
    (depth_at r (fst p) (snd p)) = false ->
  forall (l : list (Z * Z)) (s : TinyRenderer),
  (forall q, q ∈ l -> in_buffer r (fst q) (snd q)) ->
  wf s -> width s = width r -> height s = height r ->
  (p ∈ l /\ depth_at s (fst p) (snd p) = depth_at r (fst p) (snd p)) \/
  (pixel_bytes s (fst p) (snd p) =
     stored (shade getPixel scale t0 t1 t2
               (barycentric v0 v1 v2 (inject_Z (fst p), inject_Z (snd p)))
               i tex) /\
   depth_at s (fst p) (snd p) =
     Some (Fin (interp_z v0 v1 v2
                  (barycentric v0 v1 v2
                     (inject_Z (fst p), inject_Z (snd p)))))) ->
  let s' := foldl (fun r q => step v0 v1 v2 t0 t1 t2 i tex r (fst q) (snd q))
                  s l in
  pixel_bytes s' (fst p) (snd p) =
    stored (shade getPixel scale t0 t1 t2
              (barycentric v0 v1 v2 (inject_Z (fst p), inject_Z (snd p)))
              i tex) /\
  depth_at s' (fst p) (snd p) =
    Some (Fin (interp_z v0 v1 v2
                 (barycentric v0 v1 v2
                    (inject_Z (fst p), inject_Z (snd p))))).
Proof.
  intros Hwf Hp Hacc.
  induction l as [| q l IH]; intros s Hl Hs Hw Hh Hcase.
  - destruct Hcase as [[Hin _] | Hdone]; [inversion Hin | exact Hdone].
  - cbn [foldl]. apply IH.
    + intros q' Hq'. apply Hl. by apply list_elem_of_further.
    + by apply triangle_pixel_wf.
    + by rewrite triangle_pixel_width.
    + by rewrite triangle_pixel_height.
    + assert (in_buffer r (fst q) (snd q)) as Hq
        by apply Hl, list_elem_of_here.
      destruct (decide (q = p)) as [-> | Hne].
      * right. destruct Hcase as [[_ Hd] | [Hb Hd]].
        -- unfold depth_at in Hd, Hacc. rewrite <- Hd in Hacc.
           destruct (triangle_pixel_effect v0 v1 v2 t0 t1 t2 i tex s
                       (fst p) (snd p) Hs Hacc) as [Eb Ed].
           unfold pixel_bytes, depth_at. rewrite triangle_pixel_width.
           rewrite Eb, Ed.
           destruct Hp as [Hpx Hpy].
           pose proof (index_range _ _ _ _ Hpx Hpy) as Hr.
           rewrite Hw, Hh.
           rewrite !decide_True by (try split; (reflexivity || lia)).
           done.
        -- rewrite triangle_pixel_rejected; [done |].
           unfold depth_at in Hd. rewrite Hd.
           apply rejected_depth, Qle_refl.
      * pose proof (index_ne r p q Hp Hq Hne) as Hi. rewrite <- Hw in Hi.
        unfold pixel_bytes, depth_at in *.
        rewrite triangle_pixel_width.
        rewrite triangle_pixel_bytes_other by assumption.
        rewrite triangle_pixel_aget_other by assumption.
        destruct Hcase as [[Hin Hd] | Hdone]; [left | by right].
        split; [| exact Hd].
        apply elem_of_cons in Hin as [Hin | Hin]; [congruence | exact Hin].
Qed.

(** *** A white triangle inside the buffer *)


End TriangleFacts.

(** ** The committed color and depth *)

Section Committed.

Context {N C : Type} {Num : Numbers N C}.

Variable barycentric :
  N * N * N -> N * N * N -> N * N * N -> N * N -> N * N * N.
Variable getPixel : ImageData -> N * N -> N * N * N * N.
Variable scale : N * N * N -> N -> N * N * N.

Lemma nstore8_length (d : list Z) (i : Z) (v : N) :
  length (nstore8 d i v) = length d.
Proof.
  unfold nstore8. destruct (0 <=? i); [apply length_insert | reflexivity].
Qed.

Lemma data_at_nstore8 (d : list Z) (i : Z) (v : N) (j : Z) :
  data_at (nstore8 d i v) j =
  if decide (j = i /\ 0 <= i < Z.of_nat (length d))
  then Some (to_byte v) else data_at d j.
Proof.
  unfold data_at, nstore8.
  destruct (0 <=? j) eqn:Hj; destruct (0 <=? i) eqn:Hi;
    case_decide as H; try reflexivity; try lia.
  - destruct H as [-> H]. apply list_lookup_insert_eq. lia.
  - destruct (decide (i = j)) as [-> | Hne].
    + rewrite list_insert_ge by lia. reflexivity.
    + apply list_lookup_insert_ne. lia.
Qed.

(** The four stores of [pixel] at an index inside the buffer, read back. *)
Lemma npixel_bytes_npixel (r : NRenderer C) (p : N * N)
    (cr cg cb ca : N) (x y : Z) :
  nwf r -> nin_buffer r x y ->
  ntrunc (fst p) = Some x -> ntrunc (snd p) = Some y ->
  npixel_bytes (npixel r p (cr, cg, cb, ca)) x y =
  [Some (to_byte cr); Some (to_byte cg); Some (to_byte cb);
   Some (to_byte ca)].
Proof.
  intros (Hw & Hh & Hlen) [Hx Hy] Hpx Hpy.
  unfold npixel. rewrite Hpx, Hpy.
  unfold npixel_bytes. cbn [nimage iwidth idata].
  pose proof (index_range _ _ _ _ Hx Hy) as Hi.
  unfold BYTES_PER_PIXEL in *.
  change (seqZ 0 4) with [0; 1; 2; 3]. cbn [foldl fmap list_fmap nchannel].
  rewrite !data_at_nstore8, !nstore8_length.
  change (0 =? 0) with true. change (1 =? 0) with false.
  change (1 =? 1) with true. change (2 =? 0) with false.
  change (2 =? 1) with false. change (2 =? 2) with true.
  change (3 =? 0) with false. change (3 =? 1) with false.
  change (3 =? 2) with false. cbn iota.
  repeat case_decide; try reflexivity; exfalso; lia.
Qed.

End Committed.

(** The loop body of the sections above is the instance of the general
    body at the rationals. *)
Lemma triangle_pixel_as_instance
    (barycentric : Vector3 -> Vector3 -> Vector3 -> Vector2 -> Vector3)
    (getPixel : ImageData -> Vector2 -> Color)
    (scale : Vector3 -> Q -> Vector3)
    (v0 v1 v2 : Vector3) (t0 t1 t2 : Vector2) (i : Q) (tex : ImageData)
    (r : TinyRenderer) (x y : Z) :
  as_nrenderer
    (triangle_pixel barycentric getPixel scale v0 v1 v2 t0 t1 t2 i tex r x y) =
  ntriangle_pixel barycentric getPixel scale v0 v1 v2 t0 t1 t2 i tex
    (as_nrenderer r) x y.
Proof.
  unfold triangle_pixel, ntriangle_pixel.
  cbn [as_nrenderer nimage ndepth]. unfold naget. cbn [ncells].
  change (iwidth (imageData r)) with (width r).
  change (acells (zBuffer r) !! (y * width r + x))
    with (aget (zBuffer r) (y * width r + x)).
  change (@of_int Q Depth exact_numbers) with inject_Z.
  destruct (barycentric v0 v1 v2 (inject_Z x, inject_Z y)) as [[b0 b1] b2].
  destruct v0 as [[ax ay] az], v1 as [[bx by_] bz], v2 as [[cx cy] cz].
  change (ninterp_z (ax, ay, az) (bx, by_, bz) (cx, cy, cz) (b0, b1, b2))
    with (interp_z (ax, ay, az) (bx, by_, bz) (cx, cy, cz) (b0, b1, b2)).
  set (z := interp_z (ax, ay, az) (bx, by_, bz) (cx, cy, cz) (b0, b1, b2)).
  assert (nrejected (b0, b1, b2) z (aget (zBuffer r) (y * width r + x)) =
          rejected (b0, b1, b2) z (aget (zBuffer r) (y * width r + x))) as ->.
  { destruct (aget (zBuffer r) (y * width r + x)) as [[| d] |]; reflexivity. }
  destruct (rejected _ _ _); [reflexivity |].
  unfold npixel, pixel. cbn [fst snd ntrunc exact_numbers].
  rewrite !trunc_inject_Z.
  reflexivity.
Qed.

(** C8: at a pixel of the buffer whose weights pass the inside test and
    whose depth passes the depth test, the loop body commits the texel
    read at [(u * textureWidth, (1 - v) * textureHeight)], [(u, v)] being
    the barycentric blend of the texture coordinates, with red, green and
    blue multiplied by the intensity and alpha as read, each converted by
    the byte array; and the depth cell of the pixel becomes the
    interpolated z, [z0 * b0 + z1 * b1 + z2 * b2] summed from the left.
    This holds in every number system, with the roundings of its
    operations. *)
Theorem accepted_pixel_commit {N C : Type} (Num : Numbers N C)
    (barycentric : N * N * N -> N * N * N -> N * N * N -> N * N -> N * N * N)
    (getPixel : ImageData -> N * N -> N * N * N * N)
    (scale : N * N * N -> N -> N * N * N)
    (r : NRenderer C) (x0 y0 z0 x1 y1 z1 x2 y2 z2 : N) (t0 t1 t2 : N * N)
    (i : N) (tex : ImageData) (x y : Z) (b0 b1 b2 : N) :
  nwf r -> nin_buffer r x y ->
  ntrunc (of_int x) = Some x -> ntrunc (of_int y) = Some y ->
  (forall a b c k, scale (a, b, c) k = (nmul a k, nmul b k, nmul c k)) ->
  barycentric (x0, y0, z0) (x1, y1, z1) (x2, y2, z2) (of_int x, of_int y) =
    (b0, b1, b2) ->
  nltb b0 (of_int 0) = false -> nltb b1 (of_int 0) = false ->
  nltb b2 (of_int 0) = false ->
  let z := nadd (nadd (nmul z0 b0) (nmul z1 b1)) (nmul z2 b2) in
  (forall c, ndepth_at r x y = Some c -> cell_leb z c = false) ->
  let u := nadd (nadd (nmul (fst t0) b0) (nmul (fst t1) b1))
                (nmul (fst t2) b2) in
  let v := nadd (nadd (nmul (snd t0) b0) (nmul (snd t1) b1))
                (nmul (snd t2) b2) in
  let texel :=
    getPixel tex (nmul u (of_int (iwidth tex)),
                  nmul (nsub (of_int 1) v) (of_int (iheight tex))) in
  let r' := ntriangle_pixel barycentric getPixel scale
              (x0, y0, z0) (x1, y1, z1) (x2, y2, z2) t0 t1 t2 i tex r x y in
  npixel_bytes r' x y =
    [Some (to_byte (nmul (fst (fst (fst texel))) i));
     Some (to_byte (nmul (snd (fst (fst texel))) i));
     Some (to_byte (nmul (snd (fst texel)) i));
     Some (to_byte (snd texel))] /\
  ndepth_at r' x y = Some (to_cell z).
Proof.
  intros Hwf Hxy Htx Hty Hscale Hbc H0 H1 H2 z Hd u v texel r'.
  subst r'. unfold ntriangle_pixel. rewrite Hbc.
  cbn [ninterp_z]. fold z.
  assert (nrejected (b0, b1, b2) z
            (naget (ndepth r) (y * iwidth (nimage r) + x)) = false) as ->.
  { unfold nrejected. rewrite H0, H1, H2. cbn [orb].
    unfold ndepth_at in Hd. unfold naget.
    destruct (ncells (ndepth r) !! (y * iwidth (nimage r) + x)) as [c |];
      [by apply Hd | reflexivity]. }
  unfold nshade. fold u v texel.
  destruct texel as [[[cr cg] cb] ca] eqn:Htexel. rewrite Hscale.
  cbn [fst snd]. split.
  - apply npixel_bytes_npixel; try assumption.
  - unfold ndepth_at, npixel. cbn [fst snd]. rewrite Htx, Hty.
    cbn [nimage ndepth iwidth naset ncells].
    apply lookup_insert_eq.
Qed.

(** ** The helpers of the specification meet the contracts *)


Lemma barycentric_std_sentinel (v0 v1 v2 : Vector3) (p : Vector2) :
  area2 v0 v1 v2 == 0 -> has_negative (barycentric_std v0 v1 v2 p).
Proof.
  intros Ha. unfold barycentric_std.
  apply Qeq_bool_iff in Ha. rewrite Ha. left. reflexivity.
Qed.


(** ** Examples on concrete renderers *)

Lemma fresh_4_4 :
  wf (fresh 4 4) /\ zflat (fresh 4 4) /\
  width (fresh 4 4) = 4 /\ height (fresh 4 4) = 4.
Proof.
  unfold fresh.
  destruct (constructor_positive roomy_host 4 4)
    as (r & Hr & Hw & Hh & Hwf & Hz & _);
    [reflexivity | reflexivity | lia | discriminate | reflexivity
    | reflexivity |].
  rewrite Hr. cbn [renderer_of]. done.
Qed.

Lemma fresh_2_2 :
  wf (fresh 2 2) /\ zflat (fresh 2 2) /\
  width (fresh 2 2) = 2 /\ height (fresh 2 2) = 2.
Proof.
  unfold fresh.
  destruct (constructor_positive roomy_host 2 2)
    as (r & Hr & Hw & Hh & Hwf & Hz & _);
    [reflexivity | reflexivity | lia | discriminate | reflexivity
    | reflexivity |].
  rewrite Hr. cbn [renderer_of]. done.
Qed.




(** C2, counterexample: on a 2 by 2 buffer, a triangle whose bounding box
    holds only the points (2, 0) and (3, 0), both outside the buffer,
    turns the pixels (0, 1) and (1, 1) white and changes their depth
    entries. *)
Lemma points_right_of_buffer_wrap_around :
  let r := fresh 2 2 in
  let v0 : Vector3 := (2, 0, 0)%Q in
  let v1 : Vector3 := (3, 0, 0)%Q in
  let v2 : Vector3 := (2, 1 # 2, 0)%Q in
  let r' := triangle_std r v0 v1 v2 mid mid mid 1 white_texture in
  width r = 2 /\ height r = 2 /\
  bbox v0 v1 v2 = (2, 3, 0, 0) /\
  grid (range 2 3) (range 0 0) = [(2, 0); (3, 0)] /\
  pixel_bytes r 0 1 = [Some 0; Some 0; Some 0; Some 255] /\
  pixel_bytes r' 0 1 = [Some 255; Some 255; Some 255; Some 255] /\
  pixel_bytes r' 1 1 = [Some 255; Some 255; Some 255; Some 255] /\
  depth_at r 0 1 = Some NegInf /\
  depth_at r' 0 1 <> Some NegInf /\
  idata (imageData r') <> idata (imageData r).
Proof.
  cbn zeta. repeat split; vm_compute; (reflexivity || discriminate).
Qed.

Lemma out_of_range_points_skip_by_index_witness :
  let r := fresh 2 2 in
  let v0 : Vector3 := (0, 0, 0)%Q in
  let v1 : Vector3 := (0, 3, 0)%Q in
  let v2 : Vector3 := (3, 0, 0)%Q in
  let s := triangle_pixel barycentric_std getPixel_std scale_std v0 v1 v2
             mid mid mid 1 white_texture r 0 2 in
  idata (imageData s) = idata (imageData r) /\
  forall j, 0 <= j < width r * height r ->
    aget (zBuffer s) j = aget (zBuffer r) j.
Proof.
  intros r v0 v1 v2 s.
  apply (out_of_range_points_skip_by_index barycentric_std getPixel_std
           scale_std r v0 v1 v2 mid mid mid 1 white_texture 0 2
           (proj1 fresh_2_2)).
  vm_compute. intros [_ H]. discriminate H.
Defined.

(** C4, counterexample: on a 2 by 2 buffer, one triangle reaching below
    the buffer leaves the depth array with 7 entries instead of 4. *)
Lemma depth_buffer_grows_past_the_buffer :
  let r := fresh 2 2 in
  let r' := run_calls barycentric_std getPixel_std scale_std r
              [DrawTriangle (0, 0, 0)%Q (0, 3, 0)%Q (3, 0, 0)%Q
                 mid mid mid 1 white_texture] in
  width r = 2 /\ height r = 2 /\ alength (zBuffer r) = 4 /\
  width r' = 2 /\ height r' = 2 /\ alength (zBuffer r') = 7 /\
  is_Some (aget (zBuffer r') 6) /\
  ~ zflat r'.
Proof.
  cbn zeta.
  assert (alength (zBuffer (run_calls barycentric_std getPixel_std scale_std
            (fresh 2 2)
            [DrawTriangle (0, 0, 0)%Q (0, 3, 0)%Q (3, 0, 0)%Q
               mid mid mid 1 white_texture])) = 7) as Hlen
    by (vm_compute; reflexivity).
  repeat split; try (vm_compute; reflexivity).
  - vm_compute. by eexists.
  - intros [Hz _]. rewrite Hlen in Hz. vm_compute in Hz. discriminate.
Qed.

Lemma depth_buffer_stays_flat_witness :
  let r := fresh 4 4 in
  let cs := [DrawPixel (1, 2)%Q white;
             DrawLine (0, 0)%Q (3, 2)%Q white;
             DrawTriangle (0, 0, 0)%Q (7 # 2, 0, 0)%Q (0, 7 # 2, 0)%Q
               mid mid mid 1 white_texture] in
  zflat (run_calls barycentric_std getPixel_std scale_std r cs) /\
  width (run_calls barycentric_std getPixel_std scale_std r cs) = 4 /\
  height (run_calls barycentric_std getPixel_std scale_std r cs) = 4.
Proof.
  intros r cs.
  destruct fresh_4_4 as (_ & Hz & Hw & Hh).
  rewrite <- Hw at 2. rewrite <- Hh at 2.
  apply (depth_buffer_stays_flat barycentric_std getPixel_std scale_std
           cs r Hz).
  repeat apply Forall_cons_2; try apply Forall_nil_2; try exact I.
  vm_compute. repeat split; discriminate.
Defined.

Lemma degenerate_triangle_draws_nothing_witness :
  let r := fresh 4 4 in
  triangle barycentric_std getPixel_std scale_std r
    (0, 0, 0)%Q (1, 1, 0)%Q (2, 2, 0)%Q mid mid mid 1 white_texture = r.
Proof.
  intros r.
  assert (area2 (0, 0, 0)%Q (1, 1, 0)%Q (2, 2, 0)%Q == 0) as Ha
    by (vm_compute; reflexivity).
  apply (degenerate_triangle_draws_nothing barycentric_std getPixel_std
           scale_std r _ _ _ mid mid mid 1 white_texture Ha).
  intros p. apply barycentric_std_sentinel. exact Ha.
Defined.

(** On doubles: the triangle (0, 0, 3), (7/2, 0, 5), (0, 7/2, 9) at the
    point (1, 1), texture coordinates (0, 0), (1, 0), (0, 1), intensity
    1/2.  The texel read is the one at column 0, row 1; the depth stored is
    the double the three roundings of the sum leave, just below 37/7. *)
Lemma accepted_pixel_commit_witness :
  let d := double_of_int in
  let half (z : Z) := PrimFloat.div (d z) (d 2) in
  let r' := ntriangle_pixel barycentric_double getPixel_double scale_double
              (d 0, d 0, d 3) (half 7, d 0, d 5) (d 0, half 7, d 9)
              (d 0, d 0) (d 1, d 0) (d 0, d 1) (half 1) numbered_texture
              (fresh_double 4 4) 1 1 in
  npixel_bytes r' 1 1 = [Some 45; Some 50; Some 55; Some 120] /\
  exists z, ndepth_at r' 1 1 = Some z /\
    FloatOps.Prim2SF z = SpecFloat.S754_finite false 5951185221882440 (-50) /\
    double_value z = Some (5951185221882440 # 1125899906842624)%Q /\
    (5951185221882440 # 1125899906842624 < 37 # 7)%Q.
Proof.
  intros d half r'.
  pose (bc := barycentric_double (d 0, d 0, d 3) (half 7, d 0, d 5)
                (d 0, half 7, d 9) (d 1, d 1)).
  assert (nwf (fresh_double 4 4)) as Hwf
    by (vm_compute; repeat split; discriminate).
  assert (nin_buffer (fresh_double 4 4) 1 1) as Hin
    by (vm_compute; repeat split; discriminate).
  destruct (accepted_pixel_commit double_numbers barycentric_double
              getPixel_double scale_double (fresh_double 4 4)
              (d 0) (d 0) (d 3) (half 7) (d 0) (d 5) (d 0) (half 7) (d 9)
              (d 0, d 0) (d 1, d 0) (d 0, d 1) (half 1) numbered_texture 1 1
              (fst (fst bc)) (snd (fst bc)) (snd bc) Hwf Hin)
    as [Hb Hz].
  - vm_compute. reflexivity.
  - vm_compute. reflexivity.
  - intros a b c k. reflexivity.
  - vm_compute. reflexivity.
  - vm_compute. reflexivity.
  - vm_compute. reflexivity.
  - vm_compute. reflexivity.
  - intros c Hc. vm_compute in Hc. injection Hc as <-.
    vm_compute. reflexivity.
  - split; [etransitivity; [exact Hb | vm_compute; reflexivity] |].
    eexists. split; [exact Hz |].
    split; [vm_compute; reflexivity |].
    split; [vm_compute; reflexivity | vm_compute; reflexivity].
Defined.

Lemma depth_ties_keep_first_draw_witness :
  let r := fresh 4 4 in
  let v0 : Vector3 := (0, 0, 3)%Q in
  let v1 : Vector3 := (7 # 2, 0, 3)%Q in
  let v2 : Vector3 := (0, 7 # 2, 3)%Q in
  let first := triangle barycentric_std getPixel_std scale_std r v0 v1 v2
                 mid mid mid 1 white_texture in
  triangle_pixel barycentric_std getPixel_std scale_std v0 v1 v2
    mid mid mid 0 white_texture first 1 1 = first /\
  triangle barycentric_std getPixel_std scale_std first v0 v1 v2
    mid mid mid 0 white_texture = first /\
  pixel_bytes first 1 1 = [Some 255; Some 255; Some 255; Some 255].
Proof.
  intros r v0 v1 v2 first.
  split; [| split].
  - assert (exists d, depth_at first 1 1 = Some (Fin d) /\
              (interp_z v0 v1 v2
                 (barycentric_std v0 v1 v2 (inject_Z 1, inject_Z 1)) <= d)%Q)
      as (d & Hd & Hz).
    { eexists. split; [vm_compute; reflexivity | vm_compute; discriminate]. }
    exact (proj1 (depth_ties_keep_first_draw barycentric_std getPixel_std
                    scale_std first v0 v1 v2 mid mid mid 0 white_texture
                    mid mid mid 0 white_texture) 1 1 d Hd Hz).
  - exact (proj2 (depth_ties_keep_first_draw barycentric_std getPixel_std
                    scale_std r v0 v1 v2 mid mid mid 1 white_texture
                    mid mid mid 0 white_texture)).
  - vm_compute. reflexivity.
Defined.

(** ** Further properties of [pixel] *)

Lemma renderer_ext (r1 r2 : TinyRenderer) :
  width r1 = width r2 -> height r1 = height r2 ->
  idata (imageData r1) = idata (imageData r2) ->
  zBuffer r1 = zBuffer r2 -> r1 = r2.
Proof.
  destruct r1 as [[w1 h1 d1] z1], r2 as [[w2 h2 d2] z2].
  unfold width, height. cbn. intros -> -> -> ->. reflexivity.
Qed.

Lemma byte_ext (r1 r2 : TinyRenderer) :
  width r1 = width r2 -> height r1 = height r2 ->
  zBuffer r1 = zBuffer r2 ->
  (forall j, byte r1 j = byte r2 j) -> r1 = r2.
Proof.
  intros Hw Hh Hz Hb. apply renderer_ext; try assumption.
  apply data_at_ext. exact Hb.
Qed.

(** X1: A [pixel] call whose row-major index addresses no pixel of the buffer
    leaves the renderer exactly as it was: no error, no write. *)
Theorem pixel_outside_is_noop (r : TinyRenderer) (v : Vector2) (c : Color) :
  wf r ->
  ~ 0 <= trunc (snd v) * width r + trunc (fst v) < width r * height r ->
  pixel r v c = r.
Proof.
  intros (_ & _ & Hlen) Hout. unfold BYTES_PER_PIXEL in Hlen.
  apply byte_ext; try reflexivity.
  intros j. rewrite byte_pixel. cbn zeta.
  rewrite decide_False; [reflexivity | lia].
Qed.

Lemma pixel_outside_is_noop_witness :
  pixel (fresh 4 4) (1, 4)%Q white = fresh 4 4 /\
  pixel (fresh 4 4) (-1, 0)%Q white = fresh 4 4.
Proof.
  split; apply pixel_outside_is_noop;
    try exact (proj1 fresh_4_4); vm_compute; intros [H1 H2];
    first [discriminate H2 | apply H1; reflexivity].
Defined.

(** X2: [pixel] addresses the buffer by the row-major index alone: a point
    that lies [width] columns to the right of a pixel is drawn one row
    further down. *)
Theorem pixel_wraps_to_next_row (r : TinyRenderer) (x y : Z) (c : Color) :
  wf r -> in_buffer r x (y + 1) ->
  pixel r (inject_Z (x + width r), inject_Z y) c =
    pixel r (inject_Z x, inject_Z (y + 1)) c /\
  pixel_bytes (pixel r (inject_Z (x + width r), inject_Z y) c) x (y + 1) =
    stored c.
Proof.
  intros Hwf Hin.
  assert (pixel r (inject_Z (x + width r), inject_Z y) c =
          pixel r (inject_Z x, inject_Z (y + 1)) c) as E.
  { unfold pixel. cbn [fst snd]. rewrite !trunc_inject_Z.
    replace (y * width r + (x + width r)) with ((y + 1) * width r + x)
      by ring. reflexivity. }
  split; [exact E |]. rewrite E.
  rewrite pixel_bytes_pixel by assumption.
  rewrite decide_True; [reflexivity |]. left.
  unfold pixel_of. cbn [fst snd]. by rewrite !trunc_inject_Z.
Qed.

Lemma pixel_wraps_to_next_row_witness :
  pixel_bytes (pixel (fresh 4 4) (5, 1)%Q white) 1 2 = stored white.
Proof.
  assert (in_buffer (fresh 4 4) 1 (1 + 1)) as Hin
    by (vm_compute; repeat split; discriminate).
  destruct (pixel_wraps_to_next_row (fresh 4 4) 1 1 white
              (proj1 fresh_4_4) Hin) as [_ H].
  exact H.
Defined.

(** X3: Drawing twice at the same point: the last color wins, whatever the
    first was. *)
Theorem pixel_last_write_wins (r : TinyRenderer) (v : Vector2)
    (c1 c2 : Color) :
  pixel (pixel r v c1) v c2 = pixel r v c2.
Proof.
  apply byte_ext; try reflexivity.
  intros j. rewrite !byte_pixel. cbn zeta.
  rewrite pixel_width, pixel_length.
  case_decide; reflexivity.
Qed.

(** X4: Two [pixel] calls at different row-major indices commute. *)
Theorem pixel_calls_commute (r : TinyRenderer) (v1 v2 : Vector2)
    (c1 c2 : Color) :
  trunc (snd v1) * width r + trunc (fst v1) <>
  trunc (snd v2) * width r + trunc (fst v2) ->
  pixel (pixel r v1 c1) v2 c2 = pixel (pixel r v2 c2) v1 c1.
Proof.
  intros Hne. apply byte_ext; try reflexivity.
  intros j. rewrite !byte_pixel. cbn zeta.
  rewrite !pixel_width, !pixel_length.
  repeat case_decide; try reflexivity; exfalso; lia.
Qed.

Lemma pixel_calls_commute_witness :
  pixel (pixel (fresh 4 4) (1, 1)%Q white) (2, 1)%Q (0, 0, 0, 255)%Q =
  pixel (pixel (fresh 4 4) (2, 1)%Q (0, 0, 0, 255)%Q) (1, 1)%Q white.
Proof.
  apply pixel_calls_commute. vm_compute. discriminate.
Defined.

Lemma toUint8Clamp_range (q : Q) : 0 <= toUint8Clamp q <= 255.
Proof.
  unfold toUint8Clamp.
  destruct (Qle_bool q 0) eqn:E0; [lia |].
  destruct (Qle_bool 255 q) eqn:E1; [lia |].
  assert (0 < q)%Q as H0
    by (apply Qnot_le_lt; intros H; apply Qle_bool_iff in H; congruence).
  assert (q < 255)%Q as H1
    by (apply Qnot_le_lt; intros H; apply Qle_bool_iff in H; congruence).
  pose proof (Qfloor_le q) as Hf.
  assert (0 <= Qfloor q)
    by (change 0 with (Qfloor 0); apply Qfloor_resp_le; lra).
  assert (Qfloor q < 255)
    by (rewrite Zlt_Qlt; change (inject_Z 255) with 255%Q; lra).
  destruct (Qcompare _ _); [destruct (Z.even _) | |]; lia.
Qed.

Lemma toUint8Clamp_byte (b : Z) :
  0 <= b <= 255 -> toUint8Clamp (inject_Z b) = b.
Proof.
  intros Hb. unfold toUint8Clamp.
  destruct (Qle_bool (inject_Z b) 0) eqn:E0.
  { apply Qle_bool_iff in E0. change 0%Q with (inject_Z 0) in E0.
    rewrite <- Zle_Qle in E0. lia. }
  destruct (Qle_bool 255 (inject_Z b)) eqn:E1.
  { apply Qle_bool_iff in E1. change 255%Q with (inject_Z 255) in E1.
    rewrite <- Zle_Qle in E1. lia. }
  rewrite Qfloor_Z.
  assert (Qcompare (inject_Z b - inject_Z b) (1 # 2) = Lt) as ->
    by (rewrite <- Qlt_alt; lra).
  reflexivity.
Qed.

(** X5: Write and read back: a color whose four channels are byte values is
    stored unchanged at the pixel the truncated coordinates address. *)
Theorem pixel_round_trip (r : TinyRenderer) (v : Vector2)
    (cr cg cb ca : Z) :
  wf r -> in_buffer r (trunc (fst v)) (trunc (snd v)) ->
  0 <= cr <= 255 -> 0 <= cg <= 255 -> 0 <= cb <= 255 -> 0 <= ca <= 255 ->
  pixel_bytes
    (pixel r v (inject_Z cr, inject_Z cg, inject_Z cb, inject_Z ca))
    (trunc (fst v)) (trunc (snd v)) =
  [Some cr; Some cg; Some cb; Some ca].
Proof.
  intros Hwf Hin Hr Hg Hb Ha.
  rewrite pixel_bytes_pixel by assumption.
  rewrite decide_True by (by left).
  unfold stored. by rewrite !toUint8Clamp_byte.
Qed.

Lemma pixel_round_trip_witness :
  pixel_bytes
    (pixel (fresh 4 4) (5 # 2, 3 # 2)%Q
       (inject_Z 12, inject_Z 0, inject_Z 255, inject_Z 128)) 2 1 =
  [Some 12; Some 0; Some 255; Some 128].
Proof.
  apply (pixel_round_trip (fresh 4 4) (5 # 2, 3 # 2)%Q 12 0 255 128
           (proj1 fresh_4_4)); try lia.
  vm_compute. repeat split; discriminate.
Defined.

(** ** Further properties of the constructor *)



(** ** Further properties of [line] *)

Lemma trunc_comp (x y : Q) : x == y -> trunc x = trunc y.
Proof.
  destruct x as [nx dx], y as [ny dy]. unfold Qeq, trunc. cbn. intros E.
  rewrite <- (Z.quot_mul_cancel_r nx (Z.pos dx) (Z.pos dy)) by lia.
  rewrite <- (Z.quot_mul_cancel_r ny (Z.pos dy) (Z.pos dx)) by lia.
  rewrite E. f_equal. lia.
Qed.

Lemma pixel_comp (r : TinyRenderer) (x y x' y' : Q) (c : Color) :
  x == x' -> y == y' -> pixel r (x, y) c = pixel r (x', y') c.
Proof.
  intros Hx Hy. unfold pixel. cbn [fst snd].
  by rewrite (trunc_comp x x' Hx), (trunc_comp y y' Hy).
Qed.

Lemma Qabs_cases (t : Q) :
  (0 <= t /\ Qabs t == t)%Q \/ (t <= 0 /\ Qabs t == - t)%Q.
Proof.
  destruct (Qlt_le_dec t 0) as [H | H].
  - right. split; [lra |]. apply Qabs_neg. lra.
  - left. split; [exact H |]. by apply Qabs_pos.
Qed.

(** When the two ends agree on the axis the loop steps along, the loop
    plots its start point once and stops. *)
Lemma line_loop_one (steep : bool) (x0 x1 dx dy sy : Q) (c : Color)
    (y0 carry : Q) (r : TinyRenderer) :
  x0 == x1 ->
  line_loop (line_fuel x0 x1) steep x1 dx dy sy c x0 y0 carry r =
  if steep then pixel r (y0, x0) c else pixel r (x0, y0) c.
Proof.
  intros E. unfold line_fuel.
  assert (Qfloor (x1 - x0) = 0) as ->
    by (rewrite (Qfloor_comp (x1 - x0) 0) by lra; reflexivity).
  change (Z.to_nat (0 + 1)) with 1%nat. cbn [line_loop].
  assert (Qle_bool x0 x1 = true) as -> by (apply Qle_bool_iff; lra).
  destruct (Qltb dx (carry + sy)); reflexivity.
Qed.

(** X7: A line from a point to itself is a single [pixel] call, for a point
    whose first coordinate is below [2^53] in magnitude (from there on
    [x += 1] leaves a double unchanged and the loop of the source does not
    end). *)
Theorem line_single_point (r : TinyRenderer) (p : Vector2) (c : Color) :
  (- inject_Z SAFE_INTEGER < fst p < inject_Z SAFE_INTEGER)%Q ->
  line r p p c = pixel r p c.
Proof.
  intros _. destruct p as [x y]. unfold line, line_setup.
  assert (Qltb (Qabs (x - x)) (Qabs (y - y)) = false) as ->.
  { apply Qltb_false.
    destruct (Qabs_cases (x - x)) as [[? ?] | [? ?]];
      destruct (Qabs_cases (y - y)) as [[? ?] | [? ?]]; lra. }
  assert (Qltb x x = false) as -> by (apply Qltb_false; lra).
  rewrite line_loop_one by reflexivity. reflexivity.
Qed.

Lemma line_single_point_witness :
  line (fresh 4 4) (5 # 2, 3 # 2)%Q (5 # 2, 3 # 2)%Q white =
  pixel (fresh 4 4) (5 # 2, 3 # 2)%Q white.
Proof.
  apply (line_single_point (fresh 4 4) (5 # 2, 3 # 2)%Q white).
  vm_compute. split; reflexivity.
Defined.

(** X8: The two ends of a line may be given in either order. *)
Theorem line_symmetric (r : TinyRenderer) (p0 p1 : Vector2) (c : Color) :
  line r p0 p1 c = line r p1 p0 c.
Proof.
  destruct p0 as [a b], p1 as [x y]. unfold line, line_setup.
  rewrite (Qabs_Qminus a x), (Qabs_Qminus b y).
  destruct (Qltb (Qabs (x - a)) (Qabs (y - b))) eqn:S.
  - apply Qltb_true in S.
    assert (~ b == y) as Hne.
    { intros E.
      destruct (Qabs_cases (x - a)) as [[? ?] | [? ?]];
        destruct (Qabs_cases (y - b)) as [[? ?] | [? ?]]; lra. }
    destruct (Qltb y b) eqn:T1; destruct (Qltb b y) eqn:T2;
      try reflexivity; exfalso.
    + apply Qltb_true in T1, T2. lra.
    + apply Qltb_false in T1, T2. apply Hne. lra.
  - apply Qltb_false in S.
    destruct (Qltb x a) eqn:T1; destruct (Qltb a x) eqn:T2;
      try reflexivity.
    + exfalso. apply Qltb_true in T1, T2. lra.
    + apply Qltb_false in T1, T2.
      assert (a == x) as Ea by lra.
      assert (b == y) as Eb.
      { destruct (Qabs_cases (x - a)) as [[? ?] | [? ?]];
          destruct (Qabs_cases (y - b)) as [[? ?] | [? ?]]; lra. }
      rewrite (line_loop_one false a x) by exact Ea.
      rewrite (line_loop_one false x a) by (symmetry; exact Ea).
      by apply pixel_comp.
Qed.

Lemma foldl_pixel_length (c : Color) (pts : list Vector2) :
  forall r : TinyRenderer,
  length (idata (imageData (foldl (fun r p => pixel r p c) r pts))) =
  length (idata (imageData r)).
Proof.
  induction pts as [| p pts IH]; intros r; [reflexivity |].
  cbn [foldl]. rewrite IH. apply pixel_length.
Qed.

(** X9: [line] never touches the depth buffer or the dimensions, and keeps
    the pixel buffer at its length: lines are drawn without a depth
    test and leave no depth behind. *)
Theorem line_leaves_depth_alone (r : TinyRenderer) (p0 p1 : Vector2)
    (c : Color) :
  zBuffer (line r p0 p1 c) = zBuffer r /\
  width (line r p0 p1 c) = width r /\
  height (line r p0 p1 c) = height r /\
  length (idata (imageData (line r p0 p1 c))) =
    length (idata (imageData r)).
Proof.
  rewrite line_as_plots.
  destruct (foldl_pixel_zBuffer c (line_plots p0 p1) r) as (Hz & Hw & Hh).
  split; [exact Hz |]. split; [exact Hw |]. split; [exact Hh |].
  apply foldl_pixel_length.
Qed.

(** *** The loop on integers *)

(** The loop invariant of Bresenham's algorithm: [carry] is twice the
    signed distance, along the minor axis and scaled by [dx], between the
    current point and the ideal line, and stays within [dx] of zero. *)
Lemma line_pixels_loop_inv (steep : bool) (x0 y0 x1 dx dy : Z) :
  dx = x1 - x0 -> Z.abs dy <= dx ->
  forall (n : nat) (x y carry : Z),
  x0 <= x -> Z.of_nat n = x1 - x + 1 ->
  carry = (if 0 <? dy then 1 else -1) *
          (2 * dy * (x - x0) - 2 * dx * (y - y0)) ->
  (- dx < carry <= dx \/ (dx = 0 /\ carry = 0 /\ y = y0)) ->
  length (line_pixels_loop n steep x1 dx dy (Z.abs dy * 2) x y carry) = n /\
  Forall (fun p =>
            x <= (if steep then snd p else fst p) <= x1 /\
            - dx <= 2 * dy * ((if steep then snd p else fst p) - x0)
                    - 2 * dx * ((if steep then fst p else snd p) - y0)
                 <= dx)
         (line_pixels_loop n steep x1 dx dy (Z.abs dy * 2) x y carry) /\
  (0 < Z.of_nat n ->
   head (line_pixels_loop n steep x1 dx dy (Z.abs dy * 2) x y carry) =
     Some (if steep then (y, x) else (x, y)) /\
   last (line_pixels_loop n steep x1 dx dy (Z.abs dy * 2) x y carry) =
     Some (if steep then (y0 + dy, x1) else (x1, y0 + dy))).
Proof.
  intros Hdx Hdy. induction n as [| n IH]; intros x y carry Hx Hn Hc Hr.
  - cbn. split; [reflexivity |]. split; [constructor | lia].
  - cbn [line_pixels_loop].
    destruct (Z.leb_spec x x1) as [Hle | Hgt]; [| lia].
    assert (- dx <= 2 * dy * (x - x0) - 2 * dx * (y - y0) <= dx) as Hacc.
    { destruct (Z.ltb_spec 0 dy); lia. }
    assert (Z.of_nat n = 0 -> x = x1 /\ y = y0 + dy) as Hend.
    { intros Hz. assert (x = x1) by lia. split; [assumption |]. subst x.
      destruct Hr as [Hr | Hr]; [| lia].
      destruct (Z.ltb_spec 0 dy); nia. }
    set (here := if steep then (y, x) else (x, y)).
    assert ((if steep then snd here else fst here) = x /\
            (if steep then fst here else snd here) = y) as [Hd Hm]
      by (unfold here; destruct steep; done).
    destruct (Z.ltb_spec dx (carry + Z.abs dy * 2)) as [Hstep | Hstay].
    + destruct (IH (x + 1) (y + (if 0 <? dy then 1 else -1))
                  (carry + Z.abs dy * 2 - dx * 2)) as (Hlen & Hall & Hlast);
        [lia | lia | destruct (Z.ltb_spec 0 dy); lia
        | destruct (Z.ltb_spec 0 dy); lia |].
      split; [cbn; by rewrite Hlen |]. split.
      * constructor; [rewrite Hd, Hm; lia |].
        eapply Forall_impl; [exact Hall |]. cbn. intros p. lia.
      * intros _. split; [reflexivity |].
        destruct (decide (Z.of_nat n = 0)) as [Hz | Hnz].
        -- destruct n; [| lia]. cbn. destruct (Hend Hz) as [-> ->].
           by destruct steep.
        -- destruct Hlast as [Hh Hl]; [lia |].
           destruct (line_pixels_loop n steep x1 dx dy (Z.abs dy * 2)
                       (x + 1) (y + (if 0 <? dy then 1 else -1))
                       (carry + Z.abs dy * 2 - dx * 2)) as [| q l];
             [discriminate |].
           rewrite last_cons_cons. exact Hl.
    + destruct (IH (x + 1) y (carry + Z.abs dy * 2))
        as (Hlen & Hall & Hlast);
        [lia | lia | destruct (Z.ltb_spec 0 dy); lia
        | destruct (Z.ltb_spec 0 dy); lia |].
      split; [cbn; by rewrite Hlen |]. split.
      * constructor; [rewrite Hd, Hm; lia |].
        eapply Forall_impl; [exact Hall |]. cbn. intros p. lia.
      * intros _. split; [reflexivity |].
        destruct (decide (Z.of_nat n = 0)) as [Hz | Hnz].
        -- destruct n; [| lia]. cbn. destruct (Hend Hz) as [-> ->].
           by destruct steep.
        -- destruct Hlast as [Hh Hl]; [lia |].
           destruct (line_pixels_loop n steep x1 dx dy (Z.abs dy * 2)
                       (x + 1) y (carry + Z.abs dy * 2)) as [| q l];
             [discriminate |].
           rewrite last_cons_cons. exact Hl.
Qed.

Lemma minor_within (D k t e : Z) :
  0 < D -> 0 <= k <= D -> Z.abs e <= D ->
  - D <= 2 * e * k - 2 * D * t <= D ->
  Z.min 0 e <= t <= Z.max 0 e.
Proof.
  intros HD Hk He Hacc.
  destruct (Z.le_gt_cases 0 e) as [Hp | Hn].
  - rewrite Z.min_l, Z.max_r by lia.
    assert (0 <= e * k) by nia. assert (e * k <= e * D) by nia.
    split; nia.
  - rewrite Z.min_r, Z.max_l by lia.
    assert (e * k <= 0) by nia. assert (e * D <= e * k) by nia.
    split; nia.
Qed.

(** Integer Bresenham: length, position of every pixel relative to the
    ideal line and to the rectangle of the end points, and the two ends. *)
Lemma line_pixels_spec (a b c d : Z) :
  length (line_pixels (a, b) (c, d)) =
    Z.to_nat (Z.max (Z.abs (c - a)) (Z.abs (d - b)) + 1) /\
  Forall (fun p =>
            Z.min a c <= fst p <= Z.max a c /\
            Z.min b d <= snd p <= Z.max b d /\
            2 * Z.abs ((c - a) * (snd p - b) - (d - b) * (fst p - a)) <=
              Z.max (Z.abs (c - a)) (Z.abs (d - b)))
         (line_pixels (a, b) (c, d)) /\
  ((head (line_pixels (a, b) (c, d)) = Some (a, b) /\
    last (line_pixels (a, b) (c, d)) = Some (c, d)) \/
   (head (line_pixels (a, b) (c, d)) = Some (c, d) /\
    last (line_pixels (a, b) (c, d)) = Some (a, b))).
Proof.
  unfold line_pixels.
  destruct (Z.ltb_spec (Z.abs (c - a)) (Z.abs (d - b))) as [Hs | Hs].
  - (* steep: the loop runs along y *)
    destruct (Z.ltb_spec d b) as [Hw | Hw].
    + destruct (line_pixels_loop_inv true d c b (b - d) (a - c)
                  eq_refl ltac:(lia) (Z.to_nat (b - d + 1)) d c 0)
        as (Hlen & Hall & Hends); [lia | lia | destruct (0 <? a - c); lia
                                  | lia |].
      split; [rewrite Hlen; lia |]. split.
      * eapply Forall_impl; [exact Hall |]. cbn. intros [px py]. cbn.
        intros [Hd Hacc].
        pose proof (minor_within (b - d) (py - d) (px - c) (a - c)
                      ltac:(lia) ltac:(lia) ltac:(lia) Hacc).
        split; [lia |]. split; [lia |]. nia.
      * right. destruct Hends as [Hh Hl]; [lia |].
        split; [exact Hh |]. rewrite Hl. do 2 f_equal; lia.
    + destruct (line_pixels_loop_inv true b a d (d - b) (c - a)
                  eq_refl ltac:(lia) (Z.to_nat (d - b + 1)) b a 0)
        as (Hlen & Hall & Hends); [lia | lia | destruct (0 <? c - a); lia
                                  | lia |].
      split; [rewrite Hlen; lia |]. split.
      * eapply Forall_impl; [exact Hall |]. cbn. intros [px py]. cbn.
        intros [Hd Hacc].
        pose proof (minor_within (d - b) (py - b) (px - a) (c - a)
                      ltac:(lia) ltac:(lia) ltac:(lia) Hacc).
        split; [lia |]. split; [lia |]. nia.
      * left. destruct Hends as [Hh Hl]; [lia |].
        split; [exact Hh |]. rewrite Hl. do 2 f_equal; lia.
  - (* not steep: the loop runs along x *)
    destruct (Z.ltb_spec c a) as [Hw | Hw].
    + destruct (line_pixels_loop_inv false c d a (a - c) (b - d)
                  eq_refl ltac:(lia) (Z.to_nat (a - c + 1)) c d 0)
        as (Hlen & Hall & Hends); [lia | lia | destruct (0 <? b - d); lia
                                  | lia |].
      split; [rewrite Hlen; lia |]. split.
      * eapply Forall_impl; [exact Hall |]. cbn. intros [px py]. cbn.
        intros [Hd Hacc].
        pose proof (minor_within (a - c) (px - c) (py - d) (b - d)
                      ltac:(lia) ltac:(lia) ltac:(lia) Hacc).
        split; [lia |]. split; [lia |]. nia.
      * right. destruct Hends as [Hh Hl]; [lia |].
        split; [exact Hh |]. rewrite Hl. do 2 f_equal; lia.
    + destruct (Z.eq_dec c a) as [-> | Hne].
      * (* both extents are zero: a single pixel *)
        assert (d = b) as -> by lia.
        rewrite !Z.sub_diag. change (Z.to_nat (0 + 1)) with 1%nat.
        cbn [line_pixels_loop]. rewrite Z.leb_refl.
        change (0 <? 0 + Z.abs 0 * 2) with false. cbn [line_pixels_loop].
        split; [reflexivity |]. split; [| by left].
        constructor; [cbn [fst snd]; lia | constructor].
      * destruct (line_pixels_loop_inv false a b c (c - a) (d - b)
                    eq_refl ltac:(lia) (Z.to_nat (c - a + 1)) a b 0)
          as (Hlen & Hall & Hends); [lia | lia | destruct (0 <? d - b); lia
                                    | lia |].
        split; [rewrite Hlen; lia |]. split.
        -- eapply Forall_impl; [exact Hall |]. cbn. intros [px py]. cbn.
           intros [Hd Hacc].
           pose proof (minor_within (c - a) (px - a) (py - b) (d - b)
                         ltac:(lia) ltac:(lia) ltac:(lia) Hacc).
           split; [lia |]. split; [lia |]. nia.
        -- left. destruct Hends as [Hh Hl]; [lia |].
           split; [exact Hh |]. rewrite Hl. do 2 f_equal; lia.
Qed.

(** *** Integer end points: the loop of [line] computes on integers *)

Lemma Qle_bool_inject (x y : Q) (a b : Z) :
  x == inject_Z a -> y == inject_Z b -> Qle_bool x y = (a <=? b).
Proof.
  intros Hx Hy. rewrite (Qleb_comp _ _ Hx _ _ Hy).
  unfold Qle_bool. cbn. by rewrite !Z.mul_1_r.
Qed.

Lemma Qltb_inject (x y : Q) (a b : Z) :
  x == inject_Z a -> y == inject_Z b -> Qltb x y = (a <? b).
Proof.
  intros Hx Hy. unfold Qltb. rewrite (Qle_bool_inject y x b a Hy Hx).
  symmetry. apply Z.ltb_antisym.
Qed.

Lemma Qabs_inject (t : Q) (z : Z) :
  t == inject_Z z -> Qabs t == inject_Z (Z.abs z).
Proof.
  intros H. rewrite (Qabs_wd _ _ H).
  destruct (Z.abs_spec z) as [[Hz ->] | [Hz ->]].
  - apply Qabs_pos. change 0%Q with (inject_Z 0). by rewrite <- Zle_Qle.
  - rewrite inject_Z_opp. apply Qabs_neg.
    change 0%Q with (inject_Z 0). rewrite <- Zle_Qle. lia.
Qed.

Lemma line_plots_loop_integer (steep : bool) (x1 dx dy sy : Q)
    (x1z dxz dyz syz : Z) :
  x1 == inject_Z x1z -> dx == inject_Z dxz -> dy == inject_Z dyz ->
  sy == inject_Z syz ->
  forall (n : nat) (x y carry : Q) (xz yz cz : Z),
  x == inject_Z xz -> y == inject_Z yz -> carry == inject_Z cz ->
  pixel_of <$> line_plots_loop n steep x1 dx dy sy x y carry =
  line_pixels_loop n steep x1z dxz dyz syz xz yz cz.
Proof.
  intros Hx1 Hdx Hdy Hsy.
  induction n as [| n IH]; intros x y carry xz yz cz Hx Hy Hc;
    [reflexivity |].
  cbn [line_plots_loop line_pixels_loop].
  rewrite (Qle_bool_inject x x1 xz x1z Hx Hx1).
  destruct (xz <=? x1z); [| reflexivity].
  assert (carry + sy == inject_Z (cz + syz)) as Hc'
    by (rewrite inject_Z_plus; lra).
  rewrite (Qltb_inject dx (carry + sy) dxz (cz + syz) Hdx Hc').
  assert (pixel_of (x, y) = (xz, yz) /\ pixel_of (y, x) = (yz, xz))
    as [Hp Hp'].
  { unfold pixel_of. cbn [fst snd].
    by rewrite (trunc_comp _ _ Hx), (trunc_comp _ _ Hy), !trunc_inject_Z. }
  assert (x + 1 == inject_Z (xz + 1)) as Hx'
    by (rewrite inject_Z_plus; change (inject_Z 1) with 1%Q; lra).
  destruct (dxz <? cz + syz); rewrite fmap_cons;
    (f_equal; [destruct steep; assumption | apply IH; try assumption]).
  - rewrite (Qltb_inject 0 dy 0 dyz (Qeq_refl _) Hdy).
    destruct (0 <? dyz); rewrite inject_Z_plus;
      [change (inject_Z 1) with 1%Q | change (inject_Z (-1)) with (-1)%Q];
      lra.
  - unfold Z.sub. rewrite !inject_Z_plus, inject_Z_opp, inject_Z_mult.
    change (inject_Z 2) with 2%Q. lra.
Qed.

Lemma inject_Z_sub (a b : Z) : inject_Z a - inject_Z b == inject_Z (a - b).
Proof. unfold Z.sub. rewrite inject_Z_plus, inject_Z_opp. reflexivity. Qed.

(** On integer end points [line] plots the pixels of the integer loop. *)
Lemma line_plots_integer (a b c d : Z) :
  pixel_of <$> line_plots (inject_Z a, inject_Z b) (inject_Z c, inject_Z d) =
  line_pixels (a, b) (c, d).
Proof.
  unfold line_plots, line_pixels, line_setup.
  rewrite (Qltb_inject _ _ (Z.abs (c - a)) (Z.abs (d - b))
             (Qabs_inject _ _ (inject_Z_sub c a))
             (Qabs_inject _ _ (inject_Z_sub d b))).
  destruct (Z.abs (c - a) <? Z.abs (d - b)).
  - rewrite (Qltb_inject _ _ d b (Qeq_refl _) (Qeq_refl _)).
    destruct (d <? b); unfold line_fuel;
      rewrite (Qfloor_comp _ _ (inject_Z_sub _ _)), Qfloor_Z;
      apply line_plots_loop_integer;
      try reflexivity; try apply inject_Z_sub.
    + rewrite inject_Z_mult. change (inject_Z 2) with 2%Q.
      rewrite (Qabs_inject _ _ (inject_Z_sub _ _)). reflexivity.
    + rewrite inject_Z_mult. change (inject_Z 2) with 2%Q.
      rewrite (Qabs_inject _ _ (inject_Z_sub _ _)). reflexivity.
  - rewrite (Qltb_inject _ _ c a (Qeq_refl _) (Qeq_refl _)).
    destruct (c <? a); unfold line_fuel;
      rewrite (Qfloor_comp _ _ (inject_Z_sub _ _)), Qfloor_Z;
      apply line_plots_loop_integer;
      try reflexivity; try apply inject_Z_sub.
    + rewrite inject_Z_mult. change (inject_Z 2) with 2%Q.
      rewrite (Qabs_inject _ _ (inject_Z_sub _ _)). reflexivity.
    + rewrite inject_Z_mult. change (inject_Z 2) with 2%Q.
      rewrite (Qabs_inject _ _ (inject_Z_sub _ _)). reflexivity.
Qed.

Lemma plotted_pixel_bounds (a b c d x y : Z) :
  (x, y) ∈ pixel_of <$>
    line_plots (inject_Z a, inject_Z b) (inject_Z c, inject_Z d) ->
  Z.min a c <= x <= Z.max a c /\
  Z.min b d <= y <= Z.max b d /\
  2 * Z.abs ((c - a) * (y - b) - (d - b) * (x - a)) <=
    Z.max (Z.abs (c - a)) (Z.abs (d - b)).
Proof.
  rewrite line_plots_integer. intros Hin.
  destruct (line_pixels_spec a b c d) as (_ & Hall & _).
  rewrite Forall_forall in Hall. exact (Hall (x, y) Hin).
Qed.

Lemma plotted_ends (a b c d : Z) :
  let pixels := pixel_of <$>
    line_plots (inject_Z a, inject_Z b) (inject_Z c, inject_Z d) in
  (head pixels = Some (a, b) /\ last pixels = Some (c, d)) \/
  (head pixels = Some (c, d) /\ last pixels = Some (a, b)).
Proof.
  cbn zeta. rewrite line_plots_integer. apply line_pixels_spec.
Qed.

(** X10: For integer end points of magnitude at most [2^50], [line] makes
    one [pixel] call for every unit step along the longer extent, end
    points included. *)
Theorem line_plot_count (a b c d : Z) :
  exact_coordinate a -> exact_coordinate b ->
  exact_coordinate c -> exact_coordinate d ->
  length (line_plots (inject_Z a, inject_Z b) (inject_Z c, inject_Z d)) =
  Z.to_nat (Z.max (Z.abs (c - a)) (Z.abs (d - b)) + 1).
Proof.
  intros _ _ _ _.
  rewrite <- (length_fmap pixel_of), line_plots_integer.
  apply line_pixels_spec.
Qed.

Lemma line_plot_count_witness :
  length (line_plots (inject_Z 7, inject_Z (-2)) (inject_Z 1, inject_Z 2)) =
  7%nat.
Proof.
  apply (line_plot_count 7 (-2) 1 2); vm_compute; discriminate.
Defined.

(** X11: For integer end points of magnitude at most [2^50], the first and
    the last pixel [line] plots are the two end points (in the order the
    loop runs, not necessarily the order given). *)
Theorem line_joins_its_end_points (a b c d : Z) :
  exact_coordinate a -> exact_coordinate b ->
  exact_coordinate c -> exact_coordinate d ->
  let pixels := pixel_of <$>
    line_plots (inject_Z a, inject_Z b) (inject_Z c, inject_Z d) in
  (head pixels = Some (a, b) /\ last pixels = Some (c, d)) \/
  (head pixels = Some (c, d) /\ last pixels = Some (a, b)).
Proof.
  intros _ _ _ _.
  cbn zeta. rewrite line_plots_integer. apply line_pixels_spec.
Qed.

Lemma line_joins_its_end_points_witness :
  let pixels := pixel_of <$>
    line_plots (inject_Z 7, inject_Z (-2)) (inject_Z 1, inject_Z 2) in
  (head pixels = Some (7, -2) /\ last pixels = Some (1, 2)) \/
  (head pixels = Some (1, 2) /\ last pixels = Some (7, -2)).
Proof.
  apply (line_joins_its_end_points 7 (-2) 1 2); vm_compute; discriminate.
Defined.

(** X12: For integer end points of magnitude at most [2^50], every pixel
    [line] plots lies in the rectangle spanned by the end points and within
    half a pixel of the ideal line, measured along the shorter extent:
    twice the cross product with the line's direction is at most the longer
    extent. *)
Theorem line_follows_the_ideal_line (a b c d x y : Z) :
  exact_coordinate a -> exact_coordinate b ->
  exact_coordinate c -> exact_coordinate d ->
  (x, y) ∈ pixel_of <$>
    line_plots (inject_Z a, inject_Z b) (inject_Z c, inject_Z d) ->
  Z.min a c <= x <= Z.max a c /\
  Z.min b d <= y <= Z.max b d /\
  2 * Z.abs ((c - a) * (y - b) - (d - b) * (x - a)) <=
    Z.max (Z.abs (c - a)) (Z.abs (d - b)).
Proof.
  intros _ _ _ _.
  rewrite line_plots_integer. intros Hin.
  destruct (line_pixels_spec a b c d) as (_ & Hall & _).
  rewrite Forall_forall in Hall. exact (Hall (x, y) Hin).
Qed.

Lemma line_follows_the_ideal_line_witness :
  Z.min 0 3 <= 2 <= Z.max 0 3 /\
  Z.min 0 10 <= 7 <= Z.max 0 10 /\
  2 * Z.abs ((3 - 0) * (7 - 0) - (10 - 0) * (2 - 0)) <=
    Z.max (Z.abs (3 - 0)) (Z.abs (10 - 0)).
Proof.
  apply (line_follows_the_ideal_line 0 0 3 10 2 7);
    try (vm_compute; discriminate).
  vm_compute. repeat (apply elem_of_cons; first [left; reflexivity | right]).
Defined.

(** X13: A line between two pixels of the buffer gives both end pixels the
    color, changes no pixel outside the rectangle they span or further
    than half a pixel from the ideal line, and never wraps around a buffer
    edge: every pixel either holds the color or is as before. *)
Theorem line_between_buffer_pixels (r : TinyRenderer) (a b c d : Z)
    (color : Color) :
  wf r -> in_buffer r a b -> in_buffer r c d ->
  let r' := line r (inject_Z a, inject_Z b) (inject_Z c, inject_Z d) color in
  pixel_bytes r' a b = stored color /\
  pixel_bytes r' c d = stored color /\
  forall x y, in_buffer r x y ->
    (pixel_bytes r' x y = stored color \/
     pixel_bytes r' x y = pixel_bytes r x y) /\
    (~ (Z.min a c <= x <= Z.max a c /\ Z.min b d <= y <= Z.max b d /\
        2 * Z.abs ((c - a) * (y - b) - (d - b) * (x - a)) <=
          Z.max (Z.abs (c - a)) (Z.abs (d - b))) ->
     pixel_bytes r' x y = pixel_bytes r x y).
Proof.
  intros Hwf Hab Hcd. cbn zeta. rewrite line_as_plots.
  assert (Forall (fun p => in_buffer r (fst (pixel_of p)) (snd (pixel_of p)))
            (line_plots (inject_Z a, inject_Z b) (inject_Z c, inject_Z d)))
    as Hall.
  { apply Forall_forall. intros p Hp.
    assert (pixel_of p ∈ pixel_of <$>
              line_plots (inject_Z a, inject_Z b) (inject_Z c, inject_Z d))
      as Hin by (apply list_elem_of_fmap; by exists p).
    destruct (pixel_of p) as [px py].
    apply plotted_pixel_bounds in Hin.
    destruct Hab, Hcd. unfold in_buffer. cbn [fst snd]. lia. }
  assert (forall x y, in_buffer r x y ->
            pixel_bytes
              (foldl (fun r p => pixel r p color) r
                 (line_plots (inject_Z a, inject_Z b)
                    (inject_Z c, inject_Z d))) x y =
            if decide ((x, y) ∈ pixel_of <$>
                         line_plots (inject_Z a, inject_Z b)
                           (inject_Z c, inject_Z d))
            then stored color else pixel_bytes r x y) as Hchar
    by (intros x y Hxy; by apply pixel_bytes_foldl_pixel).
  destruct (plotted_ends a b c d) as [[Hh Hl] | [Hh Hl]];
    apply head_Some_elem_of in Hh; apply last_Some_elem_of in Hl.
  all: split; [rewrite Hchar by assumption; by rewrite decide_True |].
  all: split; [rewrite Hchar by assumption; by rewrite decide_True |].
  all: intros x y Hxy; rewrite Hchar by assumption; split;
    [case_decide; [by left | by right] |].
  all: intros Hfar; rewrite decide_False; [reflexivity |];
    intros Hin; apply Hfar; by apply plotted_pixel_bounds.
Qed.

Lemma line_between_buffer_pixels_witness :
  let r' := line (fresh 4 4) (inject_Z 3, inject_Z 0)
              (inject_Z 0, inject_Z 2) white in
  pixel_bytes r' 3 0 = stored white /\
  pixel_bytes r' 0 2 = stored white /\
  pixel_bytes r' 3 3 = pixel_bytes (fresh 4 4) 3 3.
Proof.
  assert (in_buffer (fresh 4 4) 3 0) as H30
    by (vm_compute; repeat split; discriminate).
  assert (in_buffer (fresh 4 4) 0 2) as H02
    by (vm_compute; repeat split; discriminate).
  assert (in_buffer (fresh 4 4) 3 3) as H33
    by (vm_compute; repeat split; discriminate).
  destruct (line_between_buffer_pixels (fresh 4 4) 3 0 0 2 white
              (proj1 fresh_4_4) H30 H02) as (Ha & Hc & Hrest).
  split; [exact Ha |]. split; [exact Hc |].
  apply (proj2 (Hrest 3 3 H33)). lia.
Defined.

(** *** One pixel for every step *)

(** The pixel plotted in the [i]-th iteration lies [i] steps along the axis
    the loop runs on. *)
Lemma line_pixels_loop_major (steep : bool) (x1 dx dy sy : Z) :
  forall (n : nat) (x y carry : Z) (i : nat) (p : Z * Z),
  line_pixels_loop n steep x1 dx dy sy x y carry !! i = Some p ->
  (if steep then snd p else fst p) = x + Z.of_nat i.
Proof.
  induction n as [| n IH]; intros x y carry i p Hp; [discriminate |].
  cbn [line_pixels_loop] in Hp.
  destruct (x <=? x1); [| discriminate].
  destruct (dx <? carry + sy); destruct i as [| i]; cbn in Hp.
  - injection Hp as <-. destruct steep; cbn [fst snd]; lia.
  - apply IH in Hp. lia.
  - injection Hp as <-. destruct steep; cbn [fst snd]; lia.
  - apply IH in Hp. lia.
Qed.

Lemma line_pixels_loop_head (steep : bool) (x1 dx dy sy : Z) (n : nat)
    (x y carry : Z) (p : Z * Z) :
  line_pixels_loop n steep x1 dx dy sy x y carry !! 0%nat = Some p ->
  p = if steep then (y, x) else (x, y).
Proof.
  destruct n as [| n]; cbn [line_pixels_loop]; [discriminate |].
  destruct (x <=? x1); [| discriminate].
  destruct (dx <? carry + sy); cbn; intros E; injection E as <-;
    reflexivity.
Qed.

(** Successive pixels are neighbours, diagonal ones included. *)
Lemma line_pixels_loop_adjacent (steep : bool) (x1 dx dy sy : Z) :
  forall (n : nat) (x y carry : Z) (i : nat) (p q : Z * Z),
  line_pixels_loop n steep x1 dx dy sy x y carry !! i = Some p ->
  line_pixels_loop n steep x1 dx dy sy x y carry !! S i = Some q ->
  Z.abs (fst q - fst p) <= 1 /\ Z.abs (snd q - snd p) <= 1.
Proof.
  induction n as [| n IH]; intros x y carry i p q Hp Hq; [discriminate |].
  cbn [line_pixels_loop] in Hp, Hq.
  destruct (x <=? x1); [| discriminate].
  destruct (dx <? carry + sy); destruct i as [| i]; cbn in Hp, Hq.
  - injection Hp as <-. apply line_pixels_loop_head in Hq. subst q.
    destruct steep, (0 <? dy); cbn [fst snd]; lia.
  - exact (IH _ _ _ i p q Hp Hq).
  - injection Hp as <-. apply line_pixels_loop_head in Hq. subst q.
    destruct steep; cbn [fst snd]; lia.
  - exact (IH _ _ _ i p q Hp Hq).
Qed.

Lemma line_pixels_major (a b c d : Z) (i : nat) (p : Z * Z) :
  line_pixels (a, b) (c, d) !! i = Some p ->
  if Z.abs (c - a) <? Z.abs (d - b)
  then snd p = Z.min b d + Z.of_nat i
  else fst p = Z.min a c + Z.of_nat i.
Proof.
  unfold line_pixels.
  destruct (Z.abs (c - a) <? Z.abs (d - b)).
  - destruct (Z.ltb_spec d b); intros Hp;
      apply line_pixels_loop_major in Hp; lia.
  - destruct (Z.ltb_spec c a); intros Hp;
      apply line_pixels_loop_major in Hp; lia.
Qed.

Lemma line_pixels_adjacent (a b c d : Z) (i : nat) (p q : Z * Z) :
  line_pixels (a, b) (c, d) !! i = Some p ->
  line_pixels (a, b) (c, d) !! S i = Some q ->
  Z.abs (fst q - fst p) <= 1 /\ Z.abs (snd q - snd p) <= 1.
Proof.
  unfold line_pixels.
  destruct (Z.abs (c - a) <? Z.abs (d - b)).
  - destruct (d <? b); apply line_pixels_loop_adjacent.
  - destruct (c <? a); apply line_pixels_loop_adjacent.
Qed.

(** X14: For integer end points of magnitude at most [2^50] the plotted line
    has no gaps and no doubled steps: [line] plots exactly one pixel in
    every column between the end points (in every row, when the line is
    steep), and successive pixels are neighbours, diagonal ones
    included. *)
Theorem line_has_no_gaps (a b c d : Z) :
  exact_coordinate a -> exact_coordinate b ->
  exact_coordinate c -> exact_coordinate d ->
  let pixels := pixel_of <$>
    line_plots (inject_Z a, inject_Z b) (inject_Z c, inject_Z d) in
  (if Z.abs (c - a) <? Z.abs (d - b)
   then forall y, Z.min b d <= y <= Z.max b d ->
          exists x, forall x', (x', y) ∈ pixels <-> x' = x
   else forall x, Z.min a c <= x <= Z.max a c ->
          exists y, forall y', (x, y') ∈ pixels <-> y' = y) /\
  forall i p q, pixels !! i = Some p -> pixels !! S i = Some q ->
    Z.abs (fst q - fst p) <= 1 /\ Z.abs (snd q - snd p) <= 1.
Proof.
  intros _ _ _ _. cbn zeta. rewrite line_plots_integer.
  destruct (line_pixels_spec a b c d) as (Hlen & _ & _).
  pose proof (line_pixels_major a b c d) as Hmajor.
  split; [| apply line_pixels_adjacent].
  destruct (Z.ltb_spec (Z.abs (c - a)) (Z.abs (d - b))) as [Hs | Hs].
  - intros y Hy.
    destruct (lookup_lt_is_Some_2 (line_pixels (a, b) (c, d))
                (Z.to_nat (y - Z.min b d)) ltac:(lia)) as [[px py] Hp].
    pose proof (Hmajor _ _ Hp) as Hpy. cbn [snd] in Hpy.
    exists px. intros x'. split.
    + intros Hin. apply list_elem_of_lookup_1 in Hin as [j Hj].
      pose proof (Hmajor _ _ Hj) as Hjy. cbn [snd] in Hjy.
      assert (j = Z.to_nat (y - Z.min b d)) as -> by lia.
      congruence.
    + intros ->.
      assert (py = y) as <- by lia.
      exact (list_elem_of_lookup_2 _ _ _ Hp).
  - intros x Hx.
    destruct (lookup_lt_is_Some_2 (line_pixels (a, b) (c, d))
                (Z.to_nat (x - Z.min a c)) ltac:(lia)) as [[px py] Hp].
    pose proof (Hmajor _ _ Hp) as Hpx. cbn [fst] in Hpx.
    exists py. intros y'. split.
    + intros Hin. apply list_elem_of_lookup_1 in Hin as [j Hj].
      pose proof (Hmajor _ _ Hj) as Hjx. cbn [fst] in Hjx.
      assert (j = Z.to_nat (x - Z.min a c)) as -> by lia.
      congruence.
    + intros ->.
      assert (px = x) as <- by lia.
      exact (list_elem_of_lookup_2 _ _ _ Hp).
Qed.

Lemma line_has_no_gaps_witness :
  let pixels := pixel_of <$>
    line_plots (inject_Z 0, inject_Z 0) (inject_Z 3, inject_Z 10) in
  (forall y, Z.min 0 10 <= y <= Z.max 0 10 ->
     exists x, forall x', (x', y) ∈ pixels <-> x' = x) /\
  forall i p q, pixels !! i = Some p -> pixels !! S i = Some q ->
    Z.abs (fst q - fst p) <= 1 /\ Z.abs (snd q - snd p) <= 1.
Proof.
  apply (line_has_no_gaps 0 0 3 10); vm_compute; discriminate.
Defined.

(** *** The loop of [line] on doubles *)

(** The list of plots of the sections above is the instance of the
    general loop at the rationals. *)
Lemma line_plots_as_instance (v0 v1 : Vector2) :
  line_plots v0 v1 =
  let '(_, x0, _, x1, _) := line_setup v0 v1 in
  nline_plots (line_fuel x0 x1) v0 v1.
Proof.
  assert (forall n steep x1 dx dy sy x y carry,
            line_plots_loop n steep x1 dx dy sy x y carry =
            nline_plots_loop n steep x1 dx dy sy x y carry) as Hloop.
  { induction n as [| n IH]; intros; [reflexivity |].
    cbn [line_plots_loop nline_plots_loop]. rewrite !IH. reflexivity. }
  unfold line_plots, nline_plots.
  change (@nline_setup Q Depth exact_numbers v0 v1) with (line_setup v0 v1).
  destruct (line_setup v0 v1) as [[[[steep x0] y0] x1] y1].
  apply Hloop.
Qed.

(** At the largest coordinates of [exact_coordinate] the loop on doubles
    plots the pixels of the loop on integers. *)
Lemma double_line_at_the_bound :
  let a := 1125899906842624 in
  double_pixel_of <$>
    nline_plots 10 (double_of_int (a - 3), double_of_int (- a))
      (double_of_int a, double_of_int (2 - a)) =
  (fun p => (Some (fst p), Some (snd p))) <$>
    line_pixels (a - 3, - a) (a, 2 - a).
Proof. vm_compute. reflexivity. Qed.

(** From [2^53] on, [x += 1] leaves [x] as it is: however many iterations
    the loop of [line] from [(2^53, 0)] to [(2^53 + 2, 0)] is given, it
    plots its first point again. *)
Lemma double_line_stuck_from_2_53 (n : nat) :
  nline_plots n (double_of_int SAFE_INTEGER, double_of_int 0)
    (double_of_int (SAFE_INTEGER + 2), double_of_int 0) =
  replicate n (double_of_int SAFE_INTEGER, double_of_int 0).
Proof.
  unfold nline_plots.
  set (x0 := double_of_int SAFE_INTEGER).
  set (x1 := double_of_int (SAFE_INTEGER + 2)).
  set (zero := double_of_int 0).
  assert (nline_setup (x0, zero) (x1, zero) = (false, x0, zero, x1, zero))
    as -> by (vm_compute; reflexivity).
  assert (nsub zero zero = zero) as -> by (vm_compute; reflexivity).
  assert (nmul (nabs zero) (of_int 2) = zero) as E.
  { vm_compute. reflexivity. }
  change (of_int 0) with zero.
  rewrite E. clear E.
  induction n as [| n IH]; [reflexivity |].
  cbn [nline_plots_loop replicate].
  assert (nleb x0 x1 = true) as -> by (vm_compute; reflexivity).
  assert (nadd zero zero = zero) as -> by (vm_compute; reflexivity).
  assert (nltb (nsub x1 x0) zero = false) as -> by (vm_compute; reflexivity).
  assert (nadd x0 (of_int 1) = x0) as -> by (vm_compute; reflexivity).
  rewrite IH. reflexivity.
Qed.

(** ** Further properties of [triangle] and of call sequences *)

Lemma store8_in_range (d : list Z) (i : Z) (v : Q) :
  Forall (fun b => 0 <= b <= 255) d ->
  Forall (fun b => 0 <= b <= 255) (store8 d i v).
Proof.
  intros H. unfold store8. destruct (0 <=? i); [| exact H].
  apply Forall_insert; [exact H | apply toUint8Clamp_range].
Qed.

Lemma pixel_in_range (r : TinyRenderer) (v : Vector2) (c : Color) :
  bytes_in_range r -> bytes_in_range (pixel r v c).
Proof.
  unfold bytes_in_range. rewrite pixel_unfold. cbn. intros H.
  by repeat apply store8_in_range.
Qed.

Lemma foldl_pixel_in_range (c : Color) (pts : list Vector2) :
  forall r : TinyRenderer,
  bytes_in_range r -> bytes_in_range (foldl (fun r p => pixel r p c) r pts).
Proof.
  induction pts as [| p pts IH]; intros r H; [exact H |].
  cbn [foldl]. apply IH. by apply pixel_in_range.
Qed.

Lemma depth_below_refl (a : option Depth) : depth_below a a.
Proof. destruct a as [[| z] |]; cbn; try exact I. apply Qle_refl. Qed.

Lemma depth_below_trans (a b c : option Depth) :
  depth_below a b -> depth_below b c -> depth_below a c.
Proof.
  destruct a as [[| x] |], b as [[| y] |], c as [[| z] |]; cbn;
    try tauto. apply Qle_trans.
Qed.

Lemma rejected_false (bc : Vector3) (z : Q) (cur : option Depth) :
  rejected bc z cur = false <->
  ~ has_negative bc /\ depth_le z cur = false.
Proof.
  destruct bc as [[b0 b1] b2]. unfold rejected, has_negative.
  rewrite !orb_false_iff, !Qltb_false. split.
  - intros [[[H0 H1] H2] Hd]. split; [lra | exact Hd].
  - intros [Hn Hd]. repeat split; try exact Hd;
      apply Qnot_lt_le; intros H; apply Hn; tauto.
Qed.

Section CallSequences.

Variable barycentric : Vector3 -> Vector3 -> Vector3 -> Vector2 -> Vector3.
Variable getPixel : ImageData -> Vector2 -> Color.
Variable scale : Vector3 -> Q -> Vector3.

Local Abbreviation step := (triangle_pixel barycentric getPixel scale).
Local Abbreviation draw := (triangle barycentric getPixel scale).
Local Abbreviation run := (run_calls barycentric getPixel scale).

Lemma triangle_pixel_shape v0 v1 v2 t0 t1 t2 i tex r x y :
  length (idata (imageData (step v0 v1 v2 t0 t1 t2 i tex r x y))) =
    length (idata (imageData r)) /\
  (bytes_in_range r ->
   bytes_in_range (step v0 v1 v2 t0 t1 t2 i tex r x y)).
Proof.
  unfold triangle_pixel. destruct (rejected _ _ _); [done |].
  split; [rewrite pixel_length; reflexivity |].
  intros H. apply pixel_in_range. exact H.
Qed.

Lemma triangle_pixel_depth_grows v0 v1 v2 t0 t1 t2 i tex r x y j :
  depth_below (aget (zBuffer r) j)
    (aget (zBuffer (step v0 v1 v2 t0 t1 t2 i tex r x y)) j) /\
  alength (zBuffer r) <=
    alength (zBuffer (step v0 v1 v2 t0 t1 t2 i tex r x y)).
Proof.
  unfold triangle_pixel.
  destruct (rejected _ _ _) eqn:E; [split; [apply depth_below_refl | lia] |].
  rewrite pixel_zBuffer. cbn [zBuffer set_zBuffer]. split.
  - rewrite aget_aset. case_decide as Hj; [| apply depth_below_refl].
    subst j. apply rejected_false in E as [_ E].
    destruct (aget (zBuffer r) (y * width r + x)) as [[| d] |];
      cbn in *; try exact I.
    apply Qlt_le_weak, Qnot_le_lt. intros H.
    apply Qle_bool_iff in H. congruence.
  - unfold aset. cbn. destruct (0 <=? y * width r + x); lia.
Qed.

Lemma triangle_wf r v0 v1 v2 t0 t1 t2 i tex :
  wf r -> wf (draw r v0 v1 v2 t0 t1 t2 i tex).
Proof.
  intros H. rewrite triangle_as_grid.
  destruct (bbox v0 v1 v2) as [[[xmin xmax] ymin] ymax].
  apply (foldl_invariant wf); [| exact H].
  intros s q _. apply triangle_pixel_wf.
Qed.

(** X15: Over any sequence of [pixel], [line] and [triangle] calls, whatever
    their arguments: the dimensions and the length of the pixel buffer
    never change, and every byte of the pixel buffer stays a byte value
    (the intensity is not clamped, the stored channel is). *)
Theorem calls_keep_the_pixel_buffer_shape (cs : list Call) :
  forall r,
  width (run r cs) = width r /\
  height (run r cs) = height r /\
  length (idata (imageData (run r cs))) = length (idata (imageData r)) /\
  (bytes_in_range r -> bytes_in_range (run r cs)).
Proof.
  induction cs as [| c cs IH]; intros r; [done |].
  change (run r (c :: cs))
    with (run (run_call barycentric getPixel scale r c) cs).
  destruct (IH (run_call barycentric getPixel scale r c))
    as (-> & -> & -> & Hb).
  assert (width (run_call barycentric getPixel scale r c) = width r /\
          height (run_call barycentric getPixel scale r c) = height r /\
          length (idata (imageData
                           (run_call barycentric getPixel scale r c))) =
            length (idata (imageData r)) /\
          (bytes_in_range r ->
           bytes_in_range (run_call barycentric getPixel scale r c)))
    as (Hw & Hh & Hl & Hr);
    [| split; [exact Hw | split; [exact Hh | split; [exact Hl | auto]]]].
  destruct c as [p color | p0 p1 color | v0 v1 v2 t0 t1 t2 i tex];
    cbn [run_call].
  - split; [done |]. split; [done |].
    split; [apply pixel_length | apply pixel_in_range].
  - rewrite line_as_plots.
    destruct (foldl_pixel_zBuffer color (line_plots p0 p1) r)
      as (_ & Hw & Hh).
    split; [exact Hw |]. split; [exact Hh |].
    split; [apply foldl_pixel_length | apply foldl_pixel_in_range].
  - rewrite triangle_as_grid.
    destruct (bbox v0 v1 v2) as [[[xmin xmax] ymin] ymax].
    apply (foldl_invariant
             (fun s => width s = width r /\ height s = height r /\
                length (idata (imageData s)) = length (idata (imageData r)) /\
                (bytes_in_range r -> bytes_in_range s))); [| done].
    intros s q _ (Hw & Hh & Hl & Hr).
    rewrite triangle_pixel_width, triangle_pixel_height.
    destruct (triangle_pixel_shape v0 v1 v2 t0 t1 t2 i tex s
                (fst q) (snd q)) as [Hl' Hr'].
    split; [done |]. split; [done |]. split; [congruence | auto].
Qed.

(** X16: Over any sequence of calls, a depth entry never decreases: an entry
    that holds a number keeps a number at least as large, [-Infinity] may
    only be replaced by a number, and the length of the depth array never
    shrinks. *)
Theorem depth_entries_never_decrease (cs : list Call) :
  forall r j,
  depth_below (aget (zBuffer r) j) (aget (zBuffer (run r cs)) j) /\
  alength (zBuffer r) <= alength (zBuffer (run r cs)).
Proof.
  induction cs as [| c cs IH]; intros r j;
    [split; [apply depth_below_refl | cbn; lia] |].
  change (run r (c :: cs))
    with (run (run_call barycentric getPixel scale r c) cs).
  destruct (IH (run_call barycentric getPixel scale r c) j) as [Hd Hl].
  assert (depth_below (aget (zBuffer r) j)
            (aget (zBuffer (run_call barycentric getPixel scale r c)) j) /\
          alength (zBuffer r) <=
            alength (zBuffer (run_call barycentric getPixel scale r c)))
    as [Hd' Hl'];
    [| split; [eapply depth_below_trans; eassumption | lia]].
  destruct c as [p color | p0 p1 color | v0 v1 v2 t0 t1 t2 i tex];
    cbn [run_call].
  - split; [apply depth_below_refl | cbn; lia].
  - rewrite line_as_plots.
    destruct (foldl_pixel_zBuffer color (line_plots p0 p1) r) as (-> & _).
    split; [apply depth_below_refl | lia].
  - rewrite triangle_as_grid.
    destruct (bbox v0 v1 v2) as [[[xmin xmax] ymin] ymax].
    apply (foldl_invariant
             (fun s => depth_below (aget (zBuffer r) j) (aget (zBuffer s) j)
                       /\ alength (zBuffer r) <= alength (zBuffer s)));
      [| split; [apply depth_below_refl | lia]].
    intros s q _ [Hs Hls].
    destruct (triangle_pixel_depth_grows v0 v1 v2 t0 t1 t2 i tex s
                (fst q) (snd q) j) as [Hq Hlq].
    split; [eapply depth_below_trans; eassumption | lia].
Qed.

(** A pixel of the buffer that the scan does not visit, or whose point is
    rejected in the initial state, keeps its bytes and its depth. *)
Lemma scan_keeps v0 v1 v2 t0 t1 t2 i tex r (l : list (Z * Z)) (p : Z * Z) :
  wf r -> in_buffer r (fst p) (snd p) ->
  (forall q, q ∈ l -> in_buffer r (fst q) (snd q)) ->
  p ∉ l \/
  rejected (barycentric v0 v1 v2 (inject_Z (fst p), inject_Z (snd p)))
    (interp_z v0 v1 v2
       (barycentric v0 v1 v2 (inject_Z (fst p), inject_Z (snd p))))
    (depth_at r (fst p) (snd p)) = true ->
  pixel_bytes
    (foldl (fun r q => step v0 v1 v2 t0 t1 t2 i tex r (fst q) (snd q)) r l)
    (fst p) (snd p) = pixel_bytes r (fst p) (snd p) /\
  depth_at
    (foldl (fun r q => step v0 v1 v2 t0 t1 t2 i tex r (fst q) (snd q)) r l)
    (fst p) (snd p) = depth_at r (fst p) (snd p).
Proof.
  intros Hwf Hp Hl Hcase.
  enough (let s := foldl (fun r q => step v0 v1 v2 t0 t1 t2 i tex r
                                       (fst q) (snd q)) r l in
          wf s /\ width s = width r /\ height s = height r /\
          pixel_bytes s (fst p) (snd p) = pixel_bytes r (fst p) (snd p) /\
          depth_at s (fst p) (snd p) = depth_at r (fst p) (snd p))
    as H by (cbn zeta in H; tauto).
  apply (foldl_invariant
           (fun s => wf s /\ width s = width r /\ height s = height r /\
              pixel_bytes s (fst p) (snd p) = pixel_bytes r (fst p) (snd p) /\
              depth_at s (fst p) (snd p) = depth_at r (fst p) (snd p)));
    [| done].
  intros s q Hq (Hs & Hw & Hh & Hb & Hd).
  destruct (decide (q = p)) as [-> | Hne].
  - destruct Hcase as [Hnot | Hrej]; [contradiction |].
    rewrite triangle_pixel_rejected; [done |].
    unfold depth_at in Hd, Hrej. rewrite Hd. exact Hrej.
  - rewrite <- Hb, <- Hd. unfold pixel_bytes, depth_at.
    rewrite triangle_pixel_width, triangle_pixel_height.
    pose proof (index_ne r p q Hp (Hl q Hq) Hne) as Hi. rewrite <- Hw in Hi.
    split; [by apply triangle_pixel_wf |]. split; [done |]. split; [done |].
    split.
    + by apply triangle_pixel_bytes_other.
    + by apply triangle_pixel_aget_other.
Qed.

Lemma bbox_points_in_buffer r v0 v1 v2 :
  bbox_in_buffer r v0 v1 v2 ->
  let '(xmin, xmax, ymin, ymax) := bbox v0 v1 v2 in
  forall q, q ∈ grid (range xmin xmax) (range ymin ymax) ->
            in_buffer r (fst q) (snd q).
Proof.
  unfold bbox_in_buffer.
  destruct (bbox v0 v1 v2) as [[[xmin xmax] ymin] ymax].
  intros Hbox [qx qy] Hq. apply elem_of_grid in Hq as [Hqx Hqy].
  apply elem_of_range in Hqx, Hqy. unfold in_buffer. cbn. lia.
Qed.

(** Inside the buffer, a scanned point that passes the tests against the
    initial depth is committed. *)
Lemma triangle_commits r v0 v1 v2 t0 t1 t2 i tex x y :
  wf r -> bbox_in_buffer r v0 v1 v2 -> in_buffer r x y ->
  in_bbox v0 v1 v2 x y ->
  rejected (barycentric v0 v1 v2 (inject_Z x, inject_Z y))
    (interp_z v0 v1 v2 (barycentric v0 v1 v2 (inject_Z x, inject_Z y)))
    (depth_at r x y) = false ->
  pixel_bytes (draw r v0 v1 v2 t0 t1 t2 i tex) x y =
    stored (shade getPixel scale t0 t1 t2
              (barycentric v0 v1 v2 (inject_Z x, inject_Z y)) i tex) /\
  depth_at (draw r v0 v1 v2 t0 t1 t2 i tex) x y =
    Some (Fin (interp_z v0 v1 v2
                 (barycentric v0 v1 v2 (inject_Z x, inject_Z y)))).
Proof.
  intros Hwf Hbox Hxy Hin Hacc. rewrite triangle_as_grid.
  pose proof (bbox_points_in_buffer r v0 v1 v2 Hbox) as Hl.
  unfold in_bbox in Hin.
  destruct (bbox v0 v1 v2) as [[[xmin xmax] ymin] ymax].
  apply (scan_commits barycentric getPixel scale v0 v1 v2 t0 t1 t2 i tex
           r (x, y) Hwf Hxy Hacc _ r Hl Hwf eq_refl eq_refl).
  left. split; [| reflexivity].
  apply elem_of_grid. by rewrite !elem_of_range.
Qed.

(** Inside the buffer, a pixel that is not scanned, or whose point is
    rejected against the initial depth, is left alone. *)
Lemma triangle_keeps r v0 v1 v2 t0 t1 t2 i tex x y :
  wf r -> bbox_in_buffer r v0 v1 v2 -> in_buffer r x y ->
  ~ in_bbox v0 v1 v2 x y \/
  rejected (barycentric v0 v1 v2 (inject_Z x, inject_Z y))
    (interp_z v0 v1 v2 (barycentric v0 v1 v2 (inject_Z x, inject_Z y)))
    (depth_at r x y) = true ->
  pixel_bytes (draw r v0 v1 v2 t0 t1 t2 i tex) x y = pixel_bytes r x y /\
  depth_at (draw r v0 v1 v2 t0 t1 t2 i tex) x y = depth_at r x y.
Proof.
  intros Hwf Hbox Hxy Hcase. rewrite triangle_as_grid.
  pose proof (bbox_points_in_buffer r v0 v1 v2 Hbox) as Hl.
  unfold in_bbox in Hcase.
  destruct (bbox v0 v1 v2) as [[[xmin xmax] ymin] ymax].
  apply (scan_keeps v0 v1 v2 t0 t1 t2 i tex r _ (x, y) Hwf Hxy Hl).
  destruct Hcase as [Hout | Hrej]; [left | by right].
  rewrite elem_of_grid, !elem_of_range. exact Hout.
Qed.

(** X17: The iterations of [triangle] do not interfere when the bounding box
    lies inside the buffer: at every pixel of the box, the bytes and the
    depth cell the whole call leaves are those the single iteration at that
    pixel leaves when run on the state before the call, whatever the other
    iterations did and in whatever order; every pixel of the buffer outside
    the box keeps its bytes and its depth cell.  (When the box reaches
    outside the buffer, iterations at different points can share an
    index.) *)
Theorem triangle_pixel_by_pixel r v0 v1 v2 t0 t1 t2 i tex x y :
  wf r -> bbox_in_buffer r v0 v1 v2 -> in_buffer r x y ->
  (in_bbox v0 v1 v2 x y ->
   pixel_bytes (draw r v0 v1 v2 t0 t1 t2 i tex) x y =
     pixel_bytes (step v0 v1 v2 t0 t1 t2 i tex r x y) x y /\
   depth_at (draw r v0 v1 v2 t0 t1 t2 i tex) x y =
     depth_at (step v0 v1 v2 t0 t1 t2 i tex r x y) x y) /\
  (~ in_bbox v0 v1 v2 x y ->
   pixel_bytes (draw r v0 v1 v2 t0 t1 t2 i tex) x y = pixel_bytes r x y /\
   depth_at (draw r v0 v1 v2 t0 t1 t2 i tex) x y = depth_at r x y).
Proof.
  intros Hwf Hbox Hxy. split.
  - intros Hin.
    destruct (rejected (barycentric v0 v1 v2 (inject_Z x, inject_Z y))
                (interp_z v0 v1 v2
                   (barycentric v0 v1 v2 (inject_Z x, inject_Z y)))
                (depth_at r x y)) eqn:E.
    + rewrite (triangle_pixel_rejected barycentric getPixel scale
                 v0 v1 v2 t0 t1 t2 i tex r x y E).
      apply triangle_keeps; try assumption. by right.
    + destruct (triangle_commits r v0 v1 v2 t0 t1 t2 i tex x y
                  Hwf Hbox Hxy Hin E) as [Hb Hd].
      rewrite Hb, Hd.
      destruct (triangle_pixel_effect barycentric getPixel scale
                  v0 v1 v2 t0 t1 t2 i tex r x y Hwf E) as [Hb' Hd'].
      unfold pixel_bytes, depth_at. rewrite triangle_pixel_width.
      rewrite Hb', Hd'.
      destruct Hxy as [Hx Hy]. pose proof (index_range _ _ _ _ Hx Hy).
      rewrite !decide_True by (try split; (reflexivity || lia)).
      split; reflexivity.
  - intros Hout. apply triangle_keeps; try assumption. by left.
Qed.

(** X18: Two triangles inside the buffer that both cover a pixel and would both
    be drawn there on their own: when their interpolated depths differ,
    the pixel shows the one with the greater depth, in whichever order the
    two are drawn. *)
Theorem greater_depth_wins_in_either_order r
    a0 a1 a2 ta0 ta1 ta2 ia texa b0 b1 b2 tb0 tb1 tb2 ib texb x y :
  wf r -> bbox_in_buffer r a0 a1 a2 -> bbox_in_buffer r b0 b1 b2 ->
  in_buffer r x y -> in_bbox a0 a1 a2 x y -> in_bbox b0 b1 b2 x y ->
  rejected (barycentric a0 a1 a2 (inject_Z x, inject_Z y))
    (interp_z a0 a1 a2 (barycentric a0 a1 a2 (inject_Z x, inject_Z y)))
    (depth_at r x y) = false ->
  rejected (barycentric b0 b1 b2 (inject_Z x, inject_Z y))
    (interp_z b0 b1 b2 (barycentric b0 b1 b2 (inject_Z x, inject_Z y)))
    (depth_at r x y) = false ->
  (interp_z a0 a1 a2 (barycentric a0 a1 a2 (inject_Z x, inject_Z y)) <
   interp_z b0 b1 b2 (barycentric b0 b1 b2 (inject_Z x, inject_Z y)))%Q ->
  let ab := draw (draw r a0 a1 a2 ta0 ta1 ta2 ia texa)
              b0 b1 b2 tb0 tb1 tb2 ib texb in
  let ba := draw (draw r b0 b1 b2 tb0 tb1 tb2 ib texb)
              a0 a1 a2 ta0 ta1 ta2 ia texa in
  let shown := stored (shade getPixel scale tb0 tb1 tb2
                         (barycentric b0 b1 b2 (inject_Z x, inject_Z y))
                         ib texb) in
  pixel_bytes ab x y = shown /\ pixel_bytes ba x y = shown /\
  depth_at ab x y = depth_at ba x y.
Proof.
  intros Hwf Ha Hb Hxy Hina Hinb Hacca Haccb Hlt. cbn zeta.
  set (ra := draw r a0 a1 a2 ta0 ta1 ta2 ia texa).
  set (rb := draw r b0 b1 b2 tb0 tb1 tb2 ib texb).
  destruct (triangle_width barycentric getPixel scale r a0 a1 a2
              ta0 ta1 ta2 ia texa) as [Hwa Hha].
  destruct (triangle_width barycentric getPixel scale r b0 b1 b2
              tb0 tb1 tb2 ib texb) as [Hwb Hhb].
  fold ra in Hwa, Hha. fold rb in Hwb, Hhb.
  assert (wf ra) as Hwfa by (by apply triangle_wf).
  assert (wf rb) as Hwfb by (by apply triangle_wf).
  assert (bbox_in_buffer ra b0 b1 b2) as Hb'
    by (unfold bbox_in_buffer in *; rewrite Hwa, Hha; exact Hb).
  assert (bbox_in_buffer rb a0 a1 a2) as Ha'
    by (unfold bbox_in_buffer in *; rewrite Hwb, Hhb; exact Ha).
  assert (in_buffer ra x y) as Hxya
    by (unfold in_buffer; rewrite Hwa, Hha; exact Hxy).
  assert (in_buffer rb x y) as Hxyb
    by (unfold in_buffer; rewrite Hwb, Hhb; exact Hxy).
  destruct (triangle_commits r a0 a1 a2 ta0 ta1 ta2 ia texa
              x y Hwf Ha Hxy Hina Hacca) as [_ Hda].
  destruct (triangle_commits r b0 b1 b2 tb0 tb1 tb2 ib texb
              x y Hwf Hb Hxy Hinb Haccb) as [Hbb Hdb].
  fold ra in Hda. fold rb in Hbb, Hdb.
  apply rejected_false in Hacca as [Hnega _].
  apply rejected_false in Haccb as [Hnegb _].
  destruct (triangle_commits ra b0 b1 b2 tb0 tb1 tb2 ib texb
              x y Hwfa Hb' Hxya Hinb) as [Hab Hdab].
  { apply rejected_false. split; [exact Hnegb |]. rewrite Hda. cbn.
    destruct (Qle_bool _ _) eqn:E; [| reflexivity].
    apply Qle_bool_iff in E. lra. }
  destruct (triangle_keeps rb a0 a1 a2 ta0 ta1 ta2 ia texa
              x y Hwfb Ha' Hxyb) as [Hba Hdba].
  { right. rewrite Hdb. apply rejected_depth. lra. }
  split; [exact Hab |]. split; [by rewrite Hba |]. by rewrite Hdab, Hdba.
Qed.

End CallSequences.

(** ** Further examples *)

Lemma triangle_pixel_by_pixel_witness :
  let r := fresh 4 4 in
  let v0 : Vector3 := (0, 0, 3)%Q in
  let v1 : Vector3 := (5 # 2, 0, 3)%Q in
  let v2 : Vector3 := (0, 5 # 2, 3)%Q in
  let r' := triangle barycentric_std getPixel_std scale_std r v0 v1 v2
              mid mid mid (1 # 2) white_texture in
  pixel_bytes r' 1 1 =
    pixel_bytes (triangle_pixel barycentric_std getPixel_std scale_std
                   v0 v1 v2 mid mid mid (1 # 2) white_texture r 1 1) 1 1 /\
  depth_at r' 1 1 =
    depth_at (triangle_pixel barycentric_std getPixel_std scale_std
                v0 v1 v2 mid mid mid (1 # 2) white_texture r 1 1) 1 1 /\
  pixel_bytes r' 2 2 = pixel_bytes r 2 2 /\
  pixel_bytes r' 3 3 = pixel_bytes r 3 3 /\
  depth_at r' 3 3 = depth_at r 3 3.
Proof.
  intros r v0 v1 v2 r'.
  assert (bbox_in_buffer r v0 v1 v2) as Hbox
    by (vm_compute; repeat split; discriminate).
  assert (in_buffer r 1 1) as H11 by (vm_compute; repeat split; discriminate).
  assert (in_buffer r 2 2) as H22 by (vm_compute; repeat split; discriminate).
  assert (in_buffer r 3 3) as H33 by (vm_compute; repeat split; discriminate).
  assert (in_bbox v0 v1 v2 1 1) as Hin1
    by (vm_compute; repeat split; discriminate).
  assert (in_bbox v0 v1 v2 2 2) as Hin2
    by (vm_compute; repeat split; discriminate).
  assert (~ in_bbox v0 v1 v2 3 3) as Hout
    by (vm_compute; intros [[_ H] _]; apply H; reflexivity).
  destruct (proj1 (triangle_pixel_by_pixel barycentric_std getPixel_std
                     scale_std r v0 v1 v2 mid mid mid (1 # 2) white_texture
                     1 1 (proj1 fresh_4_4) Hbox H11) Hin1) as [Hb1 Hd1].
  destruct (proj1 (triangle_pixel_by_pixel barycentric_std getPixel_std
                     scale_std r v0 v1 v2 mid mid mid (1 # 2) white_texture
                     2 2 (proj1 fresh_4_4) Hbox H22) Hin2) as [Hb2 _].
  destruct (proj2 (triangle_pixel_by_pixel barycentric_std getPixel_std
                     scale_std r v0 v1 v2 mid mid mid (1 # 2) white_texture
                     3 3 (proj1 fresh_4_4) Hbox H33) Hout) as [Hb3 Hd3].
  split; [exact Hb1 |]. split; [exact Hd1 |].
  split; [etransitivity; [exact Hb2 | vm_compute; reflexivity] |].
  split; [exact Hb3 | exact Hd3].
Defined.

Lemma greater_depth_wins_in_either_order_witness :
  let r := fresh 4 4 in
  let a0 : Vector3 := (0, 0, 1)%Q in
  let a1 : Vector3 := (7 # 2, 0, 1)%Q in
  let a2 : Vector3 := (0, 7 # 2, 1)%Q in
  let b0 : Vector3 := (0, 0, 2)%Q in
  let b1 : Vector3 := (3, 0, 2)%Q in
  let b2 : Vector3 := (0, 3, 2)%Q in
  let ab := triangle barycentric_std getPixel_std scale_std
              (triangle barycentric_std getPixel_std scale_std r a0 a1 a2
                 mid mid mid 1 white_texture)
              b0 b1 b2 mid mid mid 0 white_texture in
  let ba := triangle barycentric_std getPixel_std scale_std
              (triangle barycentric_std getPixel_std scale_std r b0 b1 b2
                 mid mid mid 0 white_texture)
              a0 a1 a2 mid mid mid 1 white_texture in
  pixel_bytes ab 1 1 = [Some 0; Some 0; Some 0; Some 255] /\
  pixel_bytes ba 1 1 = [Some 0; Some 0; Some 0; Some 255] /\
  depth_at ab 1 1 = depth_at ba 1 1.
Proof.
  intros r a0 a1 a2 b0 b1 b2 ab ba.
  assert (bbox_in_buffer r a0 a1 a2) as Ha
    by (vm_compute; repeat split; discriminate).
  assert (bbox_in_buffer r b0 b1 b2) as Hb
    by (vm_compute; repeat split; discriminate).
  assert (in_buffer r 1 1) as H11 by (vm_compute; repeat split; discriminate).
  assert (in_bbox a0 a1 a2 1 1) as Hina
    by (vm_compute; repeat split; discriminate).
  assert (in_bbox b0 b1 b2 1 1) as Hinb
    by (vm_compute; repeat split; discriminate).
  assert (interp_z a0 a1 a2 (barycentric_std a0 a1 a2 (inject_Z 1, inject_Z 1))
          < interp_z b0 b1 b2
              (barycentric_std b0 b1 b2 (inject_Z 1, inject_Z 1)))%Q as Hlt
    by (vm_compute; reflexivity).
  destruct (greater_depth_wins_in_either_order barycentric_std getPixel_std
              scale_std r a0 a1 a2 mid mid mid 1 white_texture
              b0 b1 b2 mid mid mid 0 white_texture 1 1
              (proj1 fresh_4_4) Ha Hb H11 Hina Hinb eq_refl eq_refl Hlt)
    as (Hab & Hba & Hd).
  split; [etransitivity; [exact Hab | vm_compute; reflexivity] |].
  split; [etransitivity; [exact Hba | vm_compute; reflexivity] | exact Hd].
Defined.
